(** * customri5cy: CPU versus ReRAM in-memory-computing inference

    A shallow embedding of the benchmark firmware [sw/hello.c] (direct
    dot product, tiled crossbar execution, two-layer inference, result
    table), of the UART and heap helpers of [sw/print.c] and
    [sw/syscalls.c], and of the observer loop of [testbench.cpp] (UART
    line scanner, marker map, phase durations), followed by the
    properties established about them.

    Conventions.  C integers are mathematical integers ([Z]) with the
    conversion to each C type written out ([int32], [uint32], ...);
    signed overflow is modelled as two's complement wrap-around, which
    is what the RV32 target does.  Arrays are lists; an access outside
    the array has no defined behaviour in C and is modelled as failure
    ([None]) in the option monad, so every statement of the form
    "returns [Some ...]" also states that no access left its array.
    Array indices and matrix dimensions are natural numbers. *)

From Stdlib Require Import ZArith Lia String Ascii DecimalString.
From stdpp Require Import base option list strings gmap.

(** ** Machine integers *)

Module Int.
Local Open Scope Z_scope.

(** Conversion to [int32_t]: reduce modulo 2^32 into [-2^31, 2^31). *)
Definition int32 (z : Z) : Z := (z + 2 ^ 31) mod 2 ^ 32 - 2 ^ 31.
(** Conversion to [uint32_t]. *)
Definition uint32 (z : Z) : Z := z mod 2 ^ 32.
(** Conversion to [uint64_t]. *)
Definition uint64 (z : Z) : Z := z mod 2 ^ 64.
(** Conversion to [int8_t] and [uint8_t]. *)
Definition int8 (z : Z) : Z := (z + 2 ^ 7) mod 2 ^ 8 - 2 ^ 7.
Definition uint8 (z : Z) : Z := z mod 2 ^ 8.

Definition is_int32 (z : Z) : Prop := - 2 ^ 31 <= z < 2 ^ 31.
Definition is_int8 (z : Z) : Prop := -128 <= z <= 127.
Definition is_uint8 (z : Z) : Prop := 0 <= z <= 255.

(** [int32_t] arithmetic. *)
Definition add32 (a b : Z) : Z := int32 (a + b).
Definition sub32 (a b : Z) : Z := int32 (a - b).
Definition mul32 (a b : Z) : Z := int32 (a * b).
(** C division truncates towards zero. *)
Definition div32 (a b : Z) : Z := int32 (Z.quot a b).
End Int.
Import Int.

(** ** Arrays and loops *)

(** [a[i] = x]: fails outside the array. *)
Definition store {A} (i : nat) (x : A) (a : list A) : option (list A) :=
  if decide (i < length a) then Some (<[i := x]> a) else None.

(** [for (i = start; i < bound; i += step) body], started at [i].
    The fuel bounds the number of iterations; running out of it is a
    failure, so a [Some] result is a terminated loop. *)
Fixpoint for_loop {S : Type} (fuel : nat) (step bound : nat)
    (body : nat → S → option S) (i : nat) (s : S) : option S :=
  if decide (bound ≤ i) then Some s
  else match fuel with
       | O => None
       | Datatypes.S fuel' =>
           s' ← body i s; for_loop fuel' step bound body (i + step) s'
       end.

(** The loops of the program all start at 0 or 1 and advance by a
    positive step, so [bound] iterations always suffice. *)
Definition for_range {S : Type} (start step bound : nat)
    (body : nat → S → option S) (s : S) : option S :=
  for_loop bound step bound body start s.

(** [sumz f n] is f 0 + ... + f (n-1) over the integers. *)
Fixpoint sumz (f : nat → Z) (n : nat) : Z :=
  match n with
  | O => 0%Z
  | Datatypes.S n' => (sumz f n' + f n')%Z
  end.

(** ** The memory-mapped accelerator interface *)

(** The firmware talks to the accelerator through volatile 32-bit
    loads and stores at fixed addresses. *)
Class Mmio (D : Type) := {
  mmio_write : Z → Z → D → D;
  mmio_read : Z → D → Z
}.

Definition IMC_PROG_DATA : Z := 0x400.
Definition IMC_PROG_ADDR : Z := 0x404.
Definition IMC_V_INPUT_LO : Z := 0x408.
Definition IMC_V_INPUT_HI : Z := 0x40C.
Definition IMC_RESULT (i : nat) : Z := (0x410 + Z.of_nat i * 4)%Z.

(** Modelled from the spec: the crossbar peripheral behind these
    registers is RTL that is not among the sources.  Following the
    register-mapped interface of the specification: a program port
    taking a conductance value and then a cell index in the flat 0-63
    cell space, two input words holding four unsigned bytes each in
    little-endian order, and eight result registers, where the
    read-back of row r is the sum over the eight columns of
    conductance[r][c] * input[c].  Conductances are unsigned 8-bit. *)
Record Crossbar := mkCrossbar {
  xb_cells : gmap nat Z;
  xb_data : Z;
  xb_lo : Z;
  xb_hi : Z
}.

(** Modelled from the spec: the crossbar before any register write. *)
Definition xb_reset : Crossbar := mkCrossbar ∅ 0 0 0.

(** Modelled from the spec: the conductance of cell ([r], [c]) of the
    flat cell space; a cell that was never programmed holds 0. *)
Definition xb_cell (d : Crossbar) (r c : nat) : Z :=
  default 0%Z (xb_cells d !! (r * 8 + c)).

(** Modelled from the spec: byte [c] of the driven input vector, the
    lower four bytes in the LO word and the upper four in the HI word,
    little-endian within each word. *)
Definition xb_input (d : Crossbar) (c : nat) : Z :=
  if decide (c < 4) then Z.land (Z.shiftr (xb_lo d) (8 * Z.of_nat c)) 255
  else Z.land (Z.shiftr (xb_hi d) (8 * Z.of_nat (c - 4))) 255.

(** Modelled from the spec: the read-back of result register [r],
    raw[r] = sum over c of conductance[r][c] * input[c], as a 32-bit
    word. *)
Definition xb_row (d : Crossbar) (r : nat) : Z :=
  uint32 (sumz (λ c, xb_cell d r c * xb_input d c)%Z 8).

(** Modelled from the spec: the write ports.  Writing the address
    register stores the latched data byte into the addressed cell;
    indices outside 0-63 address no cell. *)
Definition xb_write (addr val : Z) (d : Crossbar) : Crossbar :=
  if decide (addr = IMC_PROG_DATA) then
    mkCrossbar (xb_cells d) (uint32 val) (xb_lo d) (xb_hi d)
  else if decide (addr = IMC_PROG_ADDR) then
    let idx := Z.to_nat (uint32 val) in
    if decide (idx < 64) then
      mkCrossbar (<[idx := Z.land (xb_data d) 255]> (xb_cells d))
                 (xb_data d) (xb_lo d) (xb_hi d)
    else d
  else if decide (addr = IMC_V_INPUT_LO) then
    mkCrossbar (xb_cells d) (xb_data d) (uint32 val) (xb_hi d)
  else if decide (addr = IMC_V_INPUT_HI) then
    mkCrossbar (xb_cells d) (xb_data d) (xb_lo d) (uint32 val)
  else d.

(** Modelled from the spec: the eight read-only result ports. *)
Definition xb_read (addr : Z) (d : Crossbar) : Z :=
  if decide (0x410 ≤ addr < 0x430 ∧ (addr - 0x410) mod 4 = 0)%Z
  then xb_row d (Z.to_nat ((addr - 0x410) / 4))
  else 0%Z.

(** Modelled from the spec: the crossbar as the device behind the
    memory-mapped interface. *)
#[export] Instance crossbar_mmio : Mmio Crossbar :=
  {| mmio_write := xb_write; mmio_read := xb_read |}.

(** ** sw/hello.c: matrix-vector kernels *)

Section Kernels.
Context {D : Type} `{Mmio D}.

(** [cpu_mv_u8], hello.c lines 26-34. *)
Definition cpu_mv_u8 (W inp : list Z) (rows cols : nat) (out : list Z)
    : option (list Z) :=
  for_range 0 1 rows (λ r out,
    acc ← for_range 0 1 cols (λ c acc,
             w ← W !! (r * cols + c);
             x ← inp !! c;
             Some (add32 acc (mul32 w x))) 0%Z;
    store r acc out) out.

(** [cpu_mv_i8], hello.c lines 36-44: the same loop over a signed
    8-bit input. *)
Definition cpu_mv_i8 (W inp : list Z) (rows cols : nat) (out : list Z)
    : option (list Z) :=
  for_range 0 1 rows (λ r out,
    acc ← for_range 0 1 cols (λ c acc,
             w ← W !! (r * cols + c);
             x ← inp !! c;
             Some (add32 acc (mul32 w x))) 0%Z;
    store r acc out) out.

(** [argmax], hello.c lines 46-51. *)
Definition argmax (a : list Z) (n : nat) : option nat :=
  for_range 1 1 n (λ i best,
    ai ← a !! i;
    ab ← a !! best;
    Some (if decide (ai > ab)%Z then i else best)) 0.

(** *** [imc_tile_mac], hello.c lines 72-108 *)

(** Lines 74-83: program the 64 cells of the tile. *)
Definition program_cell (W : list Z) (rows cols r_start c_start r c : nat)
    (d : D) : option D :=
  let w_row := r_start + r in
  let w_col := c_start + c in
  g_val ← (if decide (w_row < rows ∧ w_col < cols)
           then w ← W !! (w_row * cols + w_col); Some (uint32 (add32 w 128))
           else Some 128%Z);
  Some (mmio_write IMC_PROG_ADDR (Z.of_nat (r * 8 + c))
          (mmio_write IMC_PROG_DATA g_val d)).

Definition program_tile (W : list Z) (rows cols r_start c_start : nat)
    (d : D) : option D :=
  for_range 0 1 8 (λ r d,
    for_range 0 1 8 (λ c d,
      program_cell W rows cols r_start c_start r c d) d) d.

(** Lines 86-93: gather the eight input bytes, zero beyond [cols],
    and their sum.  The loop state is the pair (v, sum_v). *)
Definition gather_inputs (inp : list Z) (cols c_start : nat)
    : option (list Z * Z) :=
  for_range 0 1 8 (λ c '(v, sum_v),
    if decide (c_start + c < cols) then
      x ← inp !! (c_start + c);
      v' ← store c x v;
      Some (v', uint32 (sum_v + x))
    else Some (v, sum_v)) (replicate 8 0%Z, 0%Z).

(** Lines 94-95: [v[k] | v[k+1] << 8 | v[k+2] << 16 | v[k+3] << 24]. *)
Definition pack4 (v : list Z) (k : nat) : option Z :=
  b0 ← v !! k; b1 ← v !! (k + 1); b2 ← v !! (k + 2); b3 ← v !! (k + 3);
  Some (uint32 (Z.lor (Z.lor (Z.lor b0 (Z.shiftl b1 8)) (Z.shiftl b2 16))
                      (Z.shiftl b3 24))).

Definition drive_inputs (v : list Z) (d : D) : option D :=
  lo ← pack4 v 0;
  hi ← pack4 v 4;
  Some (mmio_write IMC_V_INPUT_HI hi (mmio_write IMC_V_INPUT_LO lo d)).

(** Line 104: the offset correction of one raw read-back. *)
Definition true_mac (raw_current sum_v : Z) : Z :=
  sub32 (int32 raw_current) (mul32 128 (int32 sum_v)).

(** Lines 100-107: read each row that lies inside the matrix, correct
    it and add it to the accumulator. *)
Definition read_and_correct (rows r_start : nat) (sum_v : Z) (d : D)
    (out : list Z) : option (list Z) :=
  for_range 0 1 8 (λ r out,
    let w_row := r_start + r in
    if decide (w_row < rows) then
      let raw_current := mmio_read (IMC_RESULT r) d in
      o ← out !! w_row;
      store w_row (add32 o (true_mac raw_current sum_v)) out
    else Some out) out.

(** The whole tile operation.  The settle delay of line 97 is a
    bounded busy loop without effect on memory or device. *)
Definition imc_tile_mac (W : list Z) (rows cols : nat) (inp : list Z)
    (r_start c_start : nat) (st : list Z * D) : option (list Z * D) :=
  let '(out, d) := st in
  d1 ← program_tile W rows cols r_start c_start d;
  '(v, sum_v) ← gather_inputs inp cols c_start;
  d2 ← drive_inputs v d1;
  out' ← read_and_correct rows r_start sum_v d2 out;
  Some (out', d2).

(** [imc_layer_execution], hello.c lines 110-117. *)
Definition imc_layer_execution (W inp : list Z) (rows cols : nat)
    (st : list Z * D) : option (list Z * D) :=
  let '(out, d) := st in
  out0 ← for_range 0 1 rows (λ r out, store r 0%Z out) out;
  for_range 0 8 cols (λ cs st,
    for_range 0 8 rows (λ rs st,
      imc_tile_mac W rows cols inp rs cs st) st) (out0, d).
End Kernels.

(** ** sw/hello.c: the two inference strategies *)

(** The contents of [mnist_weights_int8.h], which holds the network
    dimensions, the quantised weights and biases, the rescale divisor
    and the labelled test images.  The header is opaque data to the
    program, so it is a parameter of the model. *)
Record Model := mkModel {
  INPUT_SIZE : nat;
  HIDDEN_SIZE : nat;
  OUTPUT_SIZE : nat;
  H_DIV : Z;
  w1_int8 : list Z;
  b1_int32 : list Z;
  w2_int8 : list Z;
  b2_int32 : list Z;
  NUM_TEST_IMAGES : nat;
  test_images : list (list Z);
  test_labels : list Z
}.

(** The static buffers of hello.c (lines 19-21) and the accelerator. *)
Record Globals (D : Type) := mkGlobals {
  hidden_acc : list Z;
  hidden_act : list Z;
  output_acc : list Z;
  imc : D
}.
Arguments mkGlobals {D}.
Arguments hidden_acc {D}.
Arguments hidden_act {D}.
Arguments output_acc {D}.
Arguments imc {D}.

(** Line 57 / 123: [if (v < 0) v = 0]. *)
Definition relu (v : Z) : Z := if decide (v < 0)%Z then 0%Z else v.

(** Line 58 / 124: [v /= H_DIV]; division by zero is undefined. *)
Definition rescale (h_div v : Z) : option Z :=
  if decide (h_div = 0%Z) then None else Some (div32 v h_div).

(** Line 59 / 125: [(v > 127) ? (int8_t)127 : (int8_t)v]. *)
Definition saturate (v : Z) : Z :=
  if decide (v > 127)%Z then int8 127 else int8 v.

Section Inference.
Context {D : Type} `{Mmio D}.
Variable m : Model.

(** The body of the post-processing loop, identical at lines 56-59
    ([infer_cpu]) and 122-125 ([infer_imc]). *)
Definition hidden_activation (acc bias : Z) : option Z :=
  let v := add32 acc bias in
  let v := relu v in
  v ← rescale (H_DIV m) v;
  Some (saturate v).

(** Lines 55-60 / 121-126. *)
Definition activate_hidden (hacc hact : list Z) : option (list Z) :=
  for_range 0 1 (HIDDEN_SIZE m) (λ i hact,
    a ← hacc !! i;
    b ← b1_int32 m !! i;
    v ← hidden_activation a b;
    store i v hact) hact.

(** Lines 63-65 / 129-131. *)
Definition add_output_bias (oacc : list Z) : option (list Z) :=
  for_range 0 1 (OUTPUT_SIZE m) (λ i oacc,
    a ← oacc !! i;
    b ← b2_int32 m !! i;
    store i (add32 a b) oacc) oacc.

(** [infer_cpu], hello.c lines 53-67. *)
Definition infer_cpu (img : list Z) (g : Globals D)
    : option (nat * Globals D) :=
  hacc ← cpu_mv_u8 (w1_int8 m) img (HIDDEN_SIZE m) (INPUT_SIZE m)
            (hidden_acc g);
  hact ← activate_hidden hacc (hidden_act g);
  oacc ← cpu_mv_i8 (w2_int8 m) hact (OUTPUT_SIZE m) (HIDDEN_SIZE m)
            (output_acc g);
  oacc ← add_output_bias oacc;
  best ← argmax oacc (OUTPUT_SIZE m);
  Some (best, mkGlobals hacc hact oacc (imc g)).

(** [infer_imc], hello.c lines 119-133.  The cast
    [(const uint8_t* )hidden_act] re-reads every stored signed byte
    as an unsigned one. *)
Definition infer_imc (img : list Z) (g : Globals D)
    : option (nat * Globals D) :=
  '(hacc, d) ← imc_layer_execution (w1_int8 m) img (HIDDEN_SIZE m)
                  (INPUT_SIZE m) (hidden_acc g, imc g);
  hact ← activate_hidden hacc (hidden_act g);
  '(oacc, d) ← imc_layer_execution (w2_int8 m) (uint8 <$> hact)
                  (OUTPUT_SIZE m) (HIDDEN_SIZE m) (output_acc g, d);
  oacc ← add_output_bias oacc;
  best ← argmax oacc (OUTPUT_SIZE m);
  Some (best, mkGlobals hacc hact oacc d).
End Inference.

(** ** sw/hello.c: the benchmark table *)

(** What [printf] does with the conversions the program uses. *)
Definition nl : string := String "010"%char EmptyString.

Fixpoint spaces (n : nat) : string :=
  match n with
  | O => EmptyString
  | Datatypes.S n' => String " "%char (spaces n')
  end.

(** [%d] *)
Definition fmt_d (z : Z) : string := NilZero.string_of_int (Z.to_int (int32 z)).
(** [%u] and [%lu] *)
Definition fmt_u (z : Z) : string := NilZero.string_of_uint (N.to_uint (Z.to_N z)).
(** [%-Ns]: left-justified in a field of width [w]. *)
Definition pad_right (w : nat) (s : string) : string :=
  s +:+ spaces (w - String.length s).
(** [%Ns]: right-justified in a field of width [w]. *)
Definition pad_left (w : nat) (s : string) : string :=
  spaces (w - String.length s) +:+ s.

Definition rule_eq : string :=
  "========================================================".
Definition rule_dash : string :=
  "--------------------------------------------------------".

(** The local variables of [main], the globals, the number of reads of
    the cycle counter so far, and the bytes sent to the UART. *)
Record Bench (D : Type) := mkBench {
  total_cpu_cycles : Z;
  total_imc_cycles : Z;
  cpu_correct : Z;
  imc_correct : Z;
  globals : Globals D;
  clock_reads : nat;
  uart : string
}.
Arguments mkBench {D}.
Arguments total_cpu_cycles {D}.
Arguments total_imc_cycles {D}.
Arguments cpu_correct {D}.
Arguments imc_correct {D}.
Arguments globals {D}.
Arguments clock_reads {D}.
Arguments uart {D}.

Section Benchmark.
Context {D : Type} `{Mmio D}.
Variable m : Model.
(** [CYCLE_CTR k] is the value the counter register at 0x300 holds
    at the k-th read; the counter belongs to the simulated core. *)
Variable CYCLE_CTR : nat → Z.

Definition read_cycles (k : nat) : Z := uint32 (CYCLE_CTR k).

(** The table header, lines 139-149. *)
Definition banner : string :=
  nl +:+ rule_eq +:+ nl
  +:+ " CPU vs ReRAM IMC (8x8) Inference Benchmark" +:+ nl
  +:+ rule_eq +:+ nl +:+ nl
  +:+ pad_right 5 "Image" +:+ " | " +:+ pad_right 5 "Label" +:+ " | "
  +:+ pad_right 12 "CPU Cycles" +:+ " | " +:+ pad_right 12 "IMC Cycles"
  +:+ " | " +:+ pad_right 8 "Match?" +:+ nl
  +:+ rule_dash +:+ nl.

(** One iteration of the loop of lines 151-173. *)
Definition bench_image (d : nat) (b : Bench D) : option (Bench D) :=
  label ← test_labels m !! d;
  img ← test_images m !! d;
  let t0 := read_cycles (clock_reads b) in
  '(pred_cpu, g) ← infer_cpu m img (globals b);
  let cpu_cyc := uint32 (read_cycles (clock_reads b + 1) - t0) in
  let t0 := read_cycles (clock_reads b + 2) in
  '(pred_imc, g) ← infer_imc m img g;
  let imc_cyc := uint32 (read_cycles (clock_reads b + 3) - t0) in
  Some (mkBench
    (uint32 (total_cpu_cycles b + cpu_cyc))
    (uint32 (total_imc_cycles b + imc_cyc))
    (if decide (Z.of_nat pred_cpu = label) then add32 (cpu_correct b) 1
     else cpu_correct b)
    (if decide (Z.of_nat pred_imc = label) then add32 (imc_correct b) 1
     else imc_correct b)
    g
    (clock_reads b + 4)
    (uart b +:+ "  " +:+ fmt_d (Z.of_nat d) +:+ "   |   " +:+ fmt_d label
       +:+ "   | " +:+ pad_right 12 (fmt_u cpu_cyc)
       +:+ " | " +:+ pad_right 12 (fmt_u imc_cyc)
       +:+ " | " +:+ (if decide (pred_cpu = pred_imc) then "YES" else "NO")
       +:+ nl)).

(** The summary, lines 175-181. *)
Definition summary (b : Bench D) : string :=
  rule_dash +:+ nl
  +:+ nl +:+ "RESULTS:" +:+ nl
  +:+ "  CPU Accuracy: " +:+ fmt_d (cpu_correct b) +:+ "/10" +:+ nl
  +:+ "  IMC Accuracy: " +:+ fmt_d (imc_correct b) +:+ "/10" +:+ nl
  +:+ "  Avg CPU Cycles: " +:+ fmt_u (total_cpu_cycles b / 10)%Z +:+ nl
  +:+ "  Avg IMC Cycles: " +:+ fmt_u (total_imc_cycles b / 10)%Z +:+ nl
  +:+ nl +:+ rule_eq +:+ nl +:+ nl.

(** [main], lines 138-185: everything sent to the UART before the
    program parks in its final [while(1)]. *)
Definition main (g : Globals D) : option string :=
  b ← for_range 0 1 (NUM_TEST_IMAGES m) bench_image
         (mkBench 0 0 0 0 g 0 banner);
  Some (uart b +:+ summary b).
End Benchmark.

(** ** testbench.cpp: the observer *)

Module Testbench.

Definition UART_ADDR : Z := 0x100.
Definition max_cycles : Z := 20000000.

(** The outputs of the simulated core sampled after a rising clock
    edge. *)
Record Sample := mkSample {
  data_req_o : bool;
  data_we_o : bool;
  data_addr_o : Z;
  data_wdata_o : Z
}.

(** The variables of the clock loop that outlive one cycle. *)
Record Observer := mkObserver {
  last_uart_write : bool;
  current_line : string;
  markers : gmap string Z
}.

Definition init : Observer := mkObserver false EmptyString ∅.

(** [s.substr(pos)] *)
Definition substr_from (pos : nat) (s : string) : string :=
  String.substring pos (String.length s - pos) s.

(** [marker.substr(0, marker.find('\n'))]: [find] gives [npos] when
    there is no newline and [substr] then keeps the whole string. *)
Definition upto_newline (marker : string) : string :=
  match String.index 0 nl marker with
  | Some n => String.substring 0 n marker
  | None => marker
  end.

(** Lines 59-70: a finished line is searched for a start tag, and
    for an end tag only when it holds no start tag. *)
Definition record_marker (cycle : Z) (line : string)
    (mk : gmap string Z) : gmap string Z :=
  match String.index 0 "@@START_" line with
  | Some pos =>
      let marker := upto_newline (substr_from (pos + 8) line) in
      <["START_" +:+ marker := cycle]> mk
  | None =>
      match String.index 0 "@@END_" line with
      | Some pos =>
          let marker := upto_newline (substr_from (pos + 6) line) in
          <["END_" +:+ marker := cycle]> mk
      | None => mk
      end
  end.

(** Line 50: the core writes to the UART in this cycle. *)
Definition uart_write (x : Sample) : bool :=
  data_req_o x && data_we_o x && bool_decide (data_addr_o x = UART_ADDR).

(** Line 53: [(char)(top->data_wdata_o & 0xFF)]. *)
Definition sample_char (x : Sample) : ascii :=
  ascii_of_N (Z.to_N (Z.land (data_wdata_o x) 0xFF)).

(** Lines 50-75: the part of one clock cycle that concerns the UART.
    A character is taken on the rising edge of the write strobe. *)
Definition observe_cycle (cycle : Z) (x : Sample) (o : Observer) : Observer :=
  if uart_write x && negb (last_uart_write o) then
    let ch := sample_char x in
    let line := current_line o +:+ String ch EmptyString in
    if decide (ch = "010"%char) then
      mkObserver (uart_write x) EmptyString
        (record_marker cycle line (markers o))
    else mkObserver (uart_write x) line (markers o)
  else mkObserver (uart_write x) (current_line o) (markers o).

(** The loop of line 43 over the samples of cycles [cycle],
    [cycle + 1], ... *)
Fixpoint observe_from (cycle : Z) (trace : list Sample) (o : Observer)
    : Observer :=
  match trace with
  | [] => o
  | x :: trace' =>
      if decide (cycle < max_cycles)%Z
      then observe_from (uint64 (cycle + 1)) trace' (observe_cycle cycle x o)
      else o
  end.

Definition observe (trace : list Sample) : Observer :=
  observe_from 0 trace init.

(** [calc_diff], lines 86-93: the printed line and the returned
    difference. *)
Definition calc_diff (mk : gmap string Z) (name start_key end_key : string)
    : string * Z :=
  match mk !! start_key, mk !! end_key with
  | Some s, Some e =>
      let diff := uint64 (e - s) in
      (pad_right 20 name +:+ " " +:+ pad_left 12 (fmt_u diff)
         +:+ " cycles" +:+ nl, diff)
  | _, _ => (EmptyString, 0%Z)
  end.

(** Lines 95-103: the six phases of the breakdown. *)
Record Breakdown := mkBreakdown {
  prepare : Z;
  layer1 : Z;
  relu : Z;
  layer2 : Z;
  argmax : Z;
  total : Z
}.

Definition breakdown (mk : gmap string Z) : Breakdown :=
  mkBreakdown
    (calc_diff mk "Prepare input:" "START_PREPARE" "END_PREPARE").2
    (calc_diff mk "Layer 1 (784->32):" "START_LAYER1" "END_LAYER1").2
    (calc_diff mk "ReLU:" "START_RELU" "END_RELU").2
    (calc_diff mk "Layer 2 (32->10):" "START_LAYER2" "END_LAYER2").2
    (calc_diff mk "Argmax:" "START_ARGMAX" "END_ARGMAX").2
    (calc_diff mk "TOTAL:" "START_TOTAL" "END_TOTAL").2.

(** The UART samples of a program that writes the characters of [s]
    one every second cycle, the last one at cycle [last]; [idle]
    is a cycle without a write. *)
Definition idle : Sample := mkSample false false 0 0.
Definition put (c : ascii) : Sample :=
  mkSample true true UART_ADDR (Z.of_N (N_of_ascii c)).

Fixpoint spell (s : string) : list Sample :=
  match s with
  | EmptyString => []
  | String c s' => idle :: put c :: spell s'
  end.

Definition line_ending_at (last : nat) (s : string) : list Sample :=
  replicate (last + 1 - 2 * String.length s) idle ++ spell s.
End Testbench.

(** ** Vocabulary of the statements *)

(** Reading an array element that is known to exist. *)
Definition get (a : list Z) (i : nat) : Z := default 0%Z (a !! i).

(** The exact product of row [r] of [W] with the first [n] entries of
    [inp], over the integers. *)
Definition dot (W inp : list Z) (cols r n : nat) : Z :=
  sumz (λ c, get W (r * cols + c) * get inp c)%Z n.

(** The part of that product that falls on the tile at
    ([r_start], [c_start]), for tile row [r]: only the cells inside the
    [rows] x [cols] matrix are counted. *)
Definition tile_dot (W inp : list Z) (rows cols r_start c_start r : nat) : Z :=
  sumz (λ c, if decide (r_start + r < rows ∧ c_start + c < cols)
             then (get W ((r_start + r) * cols + (c_start + c))
                   * get inp (c_start + c))%Z
             else 0%Z) 8.

(** Entry [c] of the input vector of the tile whose first column is
    [c_start]: zero beyond the last column. *)
Definition padded (inp : list Z) (cols c_start c : nat) : Z :=
  if decide (c_start + c < cols) then get inp (c_start + c) else 0%Z.

(** The conductance the tile at ([r_start], [c_start]) holds in cell
    ([r], [c]). *)
Definition conductance (W : list Z) (rows cols r_start c_start r c : nat) : Z :=
  if decide (r_start + r < rows ∧ c_start + c < cols)
  then (get W ((r_start + r) * cols + (c_start + c)) + 128)%Z
  else 128%Z.

(** The value line 79 computes for a cell, before any assumption on
    the range of the weights. *)
Definition g_val (W : list Z) (rows cols r_start c_start r c : nat) : Z :=
  if decide (r_start + r < rows ∧ c_start + c < cols)
  then uint32 (add32 (get W ((r_start + r) * cols + (c_start + c))) 128)
  else 128%Z.

(** The value [hidden_activation] is expected to produce. *)
Definition clipped (h_div acc bias : Z) : Z :=
  let q := (Z.max 0 (int32 (acc + bias)) ÷ h_div)%Z in
  if decide (q > 127)%Z then 127%Z else int8 q.

(** What the types and array declarations of the program say about
    the header, an image and the static buffers.  The divisor is a
    quantisation scale, hence positive. *)
Definition wf_model (m : Model) : Prop :=
  (0 < H_DIV m)%Z
  ∧ HIDDEN_SIZE m * INPUT_SIZE m ≤ length (w1_int8 m)
  ∧ Forall is_int8 (w1_int8 m)
  ∧ HIDDEN_SIZE m ≤ length (b1_int32 m)
  ∧ OUTPUT_SIZE m * HIDDEN_SIZE m ≤ length (w2_int8 m)
  ∧ Forall is_int8 (w2_int8 m)
  ∧ OUTPUT_SIZE m ≤ length (b2_int32 m).

Definition wf_image (m : Model) (img : list Z) : Prop :=
  INPUT_SIZE m ≤ length img ∧ Forall is_uint8 img.

Definition wf_tests (m : Model) : Prop :=
  NUM_TEST_IMAGES m ≤ length (test_images m)
  ∧ NUM_TEST_IMAGES m ≤ length (test_labels m)
  ∧ Forall (wf_image m) (test_images m).

Definition wf_globals {D : Type} (m : Model) (g : Globals D) : Prop :=
  length (hidden_acc g) = HIDDEN_SIZE m
  ∧ length (hidden_act g) = HIDDEN_SIZE m
  ∧ length (output_acc g) = OUTPUT_SIZE m.

(** Whether character [c] occurs in [s]. *)
Fixpoint has_char (c : ascii) (s : string) : bool :=
  match s with
  | EmptyString => false
  | String a s' => bool_decide (a = c) || has_char c s'
  end.

(** The duration of a phase in the words of the specification:
    END[name] - START[name] in unsigned 64-bit arithmetic when both
    markers were recorded, and zero otherwise. *)
Definition duration (mk : gmap string Z) (phase : string) : Z :=
  match mk !! ("START_" +:+ phase), mk !! ("END_" +:+ phase) with
  | Some s, Some e => uint64 (e - s)
  | _, _ => 0%Z
  end.

(** The contents of the three buffers after an inference on [img],
    as tables over the exact dot products. *)
Definition mat_vec (W inp : list Z) (rows cols : nat) : list Z :=
  (λ i, int32 (dot W inp cols i cols)) <$> seq 0 rows.

Definition hidden_acc_of (m : Model) (img : list Z) : list Z :=
  mat_vec (w1_int8 m) img (HIDDEN_SIZE m) (INPUT_SIZE m).

Definition hidden_act_of (m : Model) (img : list Z) : list Z :=
  (λ i, clipped (H_DIV m) (get (hidden_acc_of m img) i) (get (b1_int32 m) i))
  <$> seq 0 (HIDDEN_SIZE m).

Definition output_acc_of (m : Model) (img : list Z) : list Z :=
  (λ i, add32 (get (mat_vec (w2_int8 m) (hidden_act_of m img)
                      (OUTPUT_SIZE m) (HIDDEN_SIZE m)) i)
              (get (b2_int32 m) i))
  <$> seq 0 (OUTPUT_SIZE m).

(** ** A small network for the concrete checks *)

Definition tiny : Model :=
  mkModel 3 2 2 4 [1; -2; 3; 4; 5; -6]%Z [0; 100]%Z [1; 2; -3; 4]%Z [5; 5]%Z
    2 [[10; 20; 30]; [255; 0; 7]]%Z [0; 1]%Z.

Definition tiny_globals : Globals Crossbar :=
  mkGlobals [0; 0]%Z [0; 0]%Z [0; 0]%Z xb_reset.

(** ** sw/print.c and sw/syscalls.c: the UART and the heap *)

(** [while (cond) body]: the condition may itself read memory and
    fail.  As for [for_loop], running out of fuel is a failure. *)
Fixpoint while_loop {S : Type} (fuel : nat) (cond : S → option bool)
    (body : S → option S) (s : S) : option S :=
  c ← cond s;
  if c : bool then
    match fuel with
    | O => None
    | Datatypes.S fuel' => s' ← body s; while_loop fuel' cond body s'
    end
  else Some s.

(** The UART is seen as the sequence of words stored to its register
    at 0x100.  Characters are bytes in 0..255 ([char] is unsigned on
    the RISC-V target). *)

(** [uart_putchar], print.c lines 3-6. *)
Definition uart_putchar (c : Z) (tx : list Z) : list Z := tx ++ [uint32 c].

(** [print_str], print.c lines 8-12.  The string lives in the byte
    array [mem], from offset [s] on; the state of the loop is the
    pointer and the UART.  Every iteration advances the pointer, so
    the loop ends within [length mem] iterations or reads outside. *)
Definition print_str (mem : list Z) (s : nat) (tx : list Z)
    : option (list Z) :=
  '(_, tx') ← while_loop (length mem)
     (λ '(s, _), c ← mem !! s; Some (negb (bool_decide (c = 0%Z))))
     (λ '(s, tx), c ← mem !! s; Some (Datatypes.S s, uart_putchar c tx))
     (s, tx);
  Some tx'.




(** [_write], syscalls.c lines 30-34: the returned count and the UART. *)
Definition _write (file : Z) (ptr : list Z) (len : Z) (tx : list Z)
    : option (Z * list Z) :=
  tx' ← for_range 0 1 (Z.to_nat len)
          (λ i tx, c ← ptr !! i; Some (tx ++ [uint32 c])) tx;
  Some (len, tx').

(** [_sbrk], syscalls.c lines 15-27.  [heap_ptr] is the static break
    (0 is NULL), [end_addr] the address of the linker symbol [_end];
    addresses are 32-bit.  Returns the previous break and the new
    value of [heap_ptr]. *)
Definition _sbrk (end_addr : Z) (incr : Z) (heap_ptr : Z) : Z * Z :=
  let heap_ptr := if decide (heap_ptr = 0%Z) then end_addr else heap_ptr in
  let prev_heap := heap_ptr in
  (prev_heap, uint32 (heap_ptr + incr)).

(** A sequence of [_sbrk] calls: the pointers returned, in order, and
    the final break. *)
Fixpoint sbrk_calls (end_addr : Z) (incrs : list Z) (heap_ptr : Z)
    : list Z * Z :=
  match incrs with
  | [] => ([], heap_ptr)
  | incr :: incrs' =>
      let '(p, heap_ptr') := _sbrk end_addr incr heap_ptr in
      let '(ps, final) := sbrk_calls end_addr incrs' heap_ptr' in
      (p :: ps, final)
  end.

(** ** More vocabulary *)






(** The sum of the first [k] increments. *)
Definition sum_incrs (incrs : list Z) (k : nat) : Z :=
  foldr Z.add 0%Z (take k incrs).

(** * Properties *)

(** ** Machine integers *)

Lemma int32_range z : is_int32 (int32 z).
Proof.
  unfold is_int32, int32.
  pose proof (Z.mod_pos_bound (z + 2 ^ 31) (2 ^ 32)). lia.
Qed.

Lemma int32_id z : is_int32 z → int32 z = z.
Proof.
  unfold is_int32, int32. intros Hz.
  rewrite Z.mod_small; lia.
Qed.

Lemma int32_shift z k : int32 (z + k * 2 ^ 32) = int32 z.
Proof.
  unfold int32.
  replace (z + k * 2 ^ 32 + 2 ^ 31)%Z with (z + 2 ^ 31 + k * 2 ^ 32)%Z by ring.
  by rewrite Z_mod_plus_full.
Qed.

Lemma int32_rep z : ∃ k, int32 z = (z + k * 2 ^ 32)%Z.
Proof.
  exists (- ((z + 2 ^ 31) / 2 ^ 32))%Z. unfold int32.
  pose proof (Z.div_mod (z + 2 ^ 31) (2 ^ 32)). lia.
Qed.

Lemma uint32_rep z : ∃ k, uint32 z = (z + k * 2 ^ 32)%Z.
Proof.
  exists (- (z / 2 ^ 32))%Z. unfold uint32.
  pose proof (Z.div_mod z (2 ^ 32)). lia.
Qed.

Lemma uint32_id z : (0 ≤ z < 2 ^ 32)%Z → uint32 z = z.
Proof. intros. unfold uint32. by rewrite Z.mod_small. Qed.

(** Wrapping an operand first does not change a wrapped sum. *)
Lemma int32_add_l a b : int32 (int32 a + b) = int32 (a + b).
Proof.
  destruct (int32_rep a) as [k ->].
  replace (a + k * 2 ^ 32 + b)%Z with (a + b + k * 2 ^ 32)%Z by ring.
  apply int32_shift.
Qed.

Lemma int32_add_r a b : int32 (a + int32 b) = int32 (a + b).
Proof. rewrite Z.add_comm, int32_add_l. f_equal. ring. Qed.

Lemma uint8_id z : is_uint8 z → uint8 z = z.
Proof. unfold is_uint8, uint8. intros. rewrite Z.mod_small; lia. Qed.

Lemma int8_id z : is_int8 z → int8 z = z.
Proof. unfold is_int8, int8. intros. rewrite Z.mod_small; lia. Qed.

(** ** Arrays and loops *)

(** Running the continuation of a bind whose first part is known. *)
Ltac bind_step := cbn [mbind option_bind].

Lemma store_Some {A} i (x : A) a :
  i < length a → store i x a = Some (<[i := x]> a).
Proof. intros. unfold store. by rewrite decide_True. Qed.

(** The invariant rule for the loops of the program. *)
Lemma for_loop_inv {S : Type} (P : nat → S → Prop) step bound body :
  0 < step →
  (∀ j s, j < bound → P j s → ∃ s', body j s = Some s' ∧ P (j + step) s') →
  ∀ fuel i s, bound ≤ i + fuel * step → P i s →
  ∃ j s', for_loop fuel step bound body i s = Some s'
          ∧ bound ≤ j ∧ (j = i ∨ j < bound + step) ∧ P j s'.
Proof.
  intros Hstep Hbody fuel. induction fuel as [|fuel IH]; intros i s Hfuel HP.
  - exists i, s. simpl. rewrite decide_True by lia. split_and!; auto with lia.
  - simpl. case_decide.
    + exists i, s. split_and!; auto with lia.
    + destruct (Hbody i s) as (s' & -> & HP'); [lia | done |]. simpl.
      destruct (IH (i + step) s') as (j & s'' & -> & ? & ? & ?); [lia | done |].
      exists j, s''. split_and!; auto with lia.
Qed.

(** Unit-step loops run from [start] to [bound] exactly. *)
Lemma for_range_inv {S : Type} (P : nat → S → Prop) start bound body s :
  start ≤ bound →
  P start s →
  (∀ j s, start ≤ j < bound → P j s →
           ∃ s', body j s = Some s' ∧ P (Datatypes.S j) s') →
  ∃ s', for_range start 1 bound body s = Some s' ∧ P bound s'.
Proof.
  intros Hle HP Hbody. unfold for_range.
  destruct (for_loop_inv (λ j s, start ≤ j ≤ bound ∧ P j s) 1 bound body)
    with (fuel := bound) (i := start) (s := s)
    as (j & s' & Hrun & ? & ? & ? & HP'); [lia | | lia | by auto with lia |].
  - intros j t Hj [? HPj].
    destruct (Hbody j t) as (t' & ? & ?); [lia | done |].
    exists t'. rewrite Nat.add_1_r. auto with lia.
  - exists s'. split; [done |]. by replace bound with j by lia.
Qed.

(** Loops over tiles advance by 8; they stop at the first multiple of
    8 that is not below the bound. *)
Lemma for_tiles_inv {S : Type} (P : nat → S → Prop) bound body s :
  P 0 s →
  (∀ j s, j < bound → P j s → ∃ s', body j s = Some s' ∧ P (j + 8) s') →
  ∃ j s', for_range 0 8 bound body s = Some s' ∧ bound ≤ j ∧ P j s'.
Proof.
  intros HP Hbody. unfold for_range.
  destruct (for_loop_inv P 8 bound body) with (fuel := bound) (i := 0) (s := s)
    as (j & s' & ? & ? & ? & ?); [lia | done | lia | done |].
  by exists j, s'.
Qed.

(** ** Class selection *)

Lemma argmax_scan (a : list Z) (n : nat) :
  1 ≤ n → n ≤ length a →
  ∃ best v, argmax a n = Some best ∧ best < n ∧ a !! best = Some v
    ∧ (∀ j x, j < n → a !! j = Some x → (x ≤ v)%Z)
    ∧ (∀ j x, j < best → a !! j = Some x → (x < v)%Z).
Proof.
  intros Hn Hlen.
  destruct (lookup_lt_is_Some_2 a 0) as [v0 Hv0]; [lia |].
  destruct (for_range_inv
    (λ i best, best < i ∧ ∃ v, a !! best = Some v
       ∧ (∀ j x, j < i → a !! j = Some x → (x ≤ v)%Z)
       ∧ (∀ j x, j < best → a !! j = Some x → (x < v)%Z))
    1 n (λ i best, ai ← a !! i; ab ← a !! best;
                   Some (if decide (ai > ab)%Z then i else best)) 0)
    as (best & Hrun & Hlt & v & Hv & Hmax & Hfirst); [done | | |].
  - split; [lia |]. exists v0. split_and!; [done | | intros; lia].
    intros j x Hj Hx. replace j with 0 in Hx by lia. naive_solver lia.
  - intros i best [? Hi] (Hb & v & Hv & Hmax & Hfirst).
    destruct (lookup_lt_is_Some_2 a i) as [ai Hai]; [lia |].
    rewrite Hai, Hv. simpl. eexists; split; [done |].
    case_decide as Hcmp.
    + split; [lia |]. exists ai. split_and!; [done | |].
      * intros j x Hj Hx. destruct (decide (j = i)) as [-> |].
        -- naive_solver lia.
        -- specialize (Hmax j x ltac:(lia) Hx). lia.
      * intros j x Hj Hx. specialize (Hmax j x ltac:(lia) Hx). lia.
    + split; [lia |]. exists v. split_and!; [done | | done].
      intros j x Hj Hx. destruct (decide (j = i)) as [-> |].
      * naive_solver lia.
      * apply (Hmax j x); [lia | done].
  - exists best, v. split_and!; done.
Qed.


(** C8.  For a non-empty score vector [argmax] returns the lowest index
    that attains the maximum: the value there is at least every score,
    and strictly above every score at a lower index.  In particular
    argmax([5,5,3]) = 0 and argmax([1,9,9,2]) = 1. *)
Theorem argmax_lowest_maximum (a : list Z) (n : nat) :
  1 ≤ n → n ≤ length a →
  (∃ best v, argmax a n = Some best ∧ best < n ∧ a !! best = Some v
     ∧ (∀ j x, j < n → a !! j = Some x → (x ≤ v)%Z)
     ∧ (∀ j x, j < best → a !! j = Some x → (x < v)%Z))
  ∧ argmax [5; 5; 3]%Z 3 = Some 0
  ∧ argmax [1; 9; 9; 2]%Z 4 = Some 1.
Proof.
  intros Hn Hlen. split; [by apply argmax_scan | by vm_compute].
Qed.

Lemma argmax_lowest_maximum_witness :
  1 ≤ 4 ∧ 4 ≤ length [1; 9; 9; 2]%Z
  ∧ ∃ best v, argmax [1; 9; 9; 2]%Z 4 = Some best ∧ best < 4
      ∧ [1; 9; 9; 2]%Z !! best = Some v
      ∧ (∀ j x, j < 4 → [1; 9; 9; 2]%Z !! j = Some x → (x ≤ v)%Z)
      ∧ (∀ j x, j < best → [1; 9; 9; 2]%Z !! j = Some x → (x < v)%Z).
Proof.
  split; [lia |]. split; [simpl; lia |].
  apply (argmax_lowest_maximum [1; 9; 9; 2]%Z 4); simpl; lia.
Defined.

(** ** Post-processing of the hidden layer *)

Lemma quot_nonneg_bound a b :
  (0 ≤ a)%Z → b ≠ 0%Z → (- a ≤ a ÷ b ≤ a)%Z.
Proof.
  intros Ha Hb. destruct (Z.lt_trichotomy b 0) as [Hneg | [-> | Hpos]]; [| done |].
  - replace b with (- - b)%Z by lia. rewrite Z.quot_opp_r by lia.
    rewrite Z.quot_div_nonneg by lia.
    pose proof (Z.div_pos a (- b)). pose proof (Z.div_le_upper_bound a (- b) a).
    nia.
  - rewrite Z.quot_div_nonneg by lia.
    pose proof (Z.div_pos a b). pose proof (Z.div_le_upper_bound a b a). nia.
Qed.

Lemma hidden_activation_clipped (m : Model) (acc bias : Z) :
  H_DIV m ≠ 0%Z →
  hidden_activation m acc bias = Some (clipped (H_DIV m) acc bias).
Proof.
  intros Hdiv. unfold hidden_activation, rescale, clipped.
  rewrite decide_False by done. simpl. f_equal.
  unfold saturate, div32, relu, add32.
  pose proof (int32_range (acc + bias)) as Hr. unfold is_int32 in Hr.
  assert (Z.max 0 (int32 (acc + bias)) =
          if decide (int32 (acc + bias) < 0)%Z then 0%Z else int32 (acc + bias))
    as Hmax by (case_decide; lia).
  rewrite <- Hmax.
  pose proof (quot_nonneg_bound (Z.max 0 (int32 (acc + bias))) (H_DIV m)).
  rewrite (int32_id (_ ÷ _)) by (unfold is_int32; lia).
  by rewrite (int8_id 127) by (unfold is_int8; lia).
Qed.

Lemma clipped_range h_div acc bias :
  (0 < h_div)%Z → (0 ≤ clipped h_div acc bias ≤ 127)%Z.
Proof.
  intros Hdiv. unfold clipped. simpl.
  pose proof (Z.quot_pos (Z.max 0 (int32 (acc + bias))) h_div).
  case_decide; [lia |]. rewrite int8_id; unfold is_int8; lia.
Qed.

Lemma activate_hidden_spec (m : Model) (hacc hact : list Z) :
  H_DIV m ≠ 0%Z →
  HIDDEN_SIZE m ≤ length hacc →
  HIDDEN_SIZE m ≤ length (b1_int32 m) →
  HIDDEN_SIZE m ≤ length hact →
  ∃ hact', activate_hidden m hacc hact = Some hact'
    ∧ length hact' = length hact
    ∧ ∀ i, hact' !! i =
        if decide (i < HIDDEN_SIZE m)
        then Some (clipped (H_DIV m) (get hacc i) (get (b1_int32 m) i))
        else hact !! i.
Proof.
  intros Hdiv Hacc Hb Hact. unfold activate_hidden.
  destruct (for_range_inv
    (λ n (h : list Z), length h = length hact ∧ ∀ i, h !! i =
        if decide (i < n)
        then Some (clipped (H_DIV m) (get hacc i) (get (b1_int32 m) i))
        else hact !! i)
    0 (HIDDEN_SIZE m)
    (λ i hact, a ← hacc !! i; b ← b1_int32 m !! i;
               v ← hidden_activation m a b; store i v hact) hact)
    as (h & Hrun & Hlen & Hh); [lia | | | by eauto].
  - split; [done |]. intros i. by rewrite decide_False by lia.
  - intros j h [_ Hj] [Hlen Hh].
    destruct (lookup_lt_is_Some_2 hacc j) as [a Ha]; [lia |].
    destruct (lookup_lt_is_Some_2 (b1_int32 m) j) as [b Hbj]; [lia |].
    rewrite Ha, Hbj. simpl. rewrite hidden_activation_clipped by done. simpl.
    rewrite store_Some by lia. eexists; split; [done |].
    split; [by rewrite length_insert |]. intros i.
    destruct (decide (i = j)) as [-> |].
    + rewrite list_lookup_insert_eq by lia. rewrite decide_True by lia.
      unfold get. by rewrite Ha, Hbj.
    + rewrite list_lookup_insert_ne by done. rewrite Hh.
      repeat case_decide; done || lia.
Qed.

(** C7.  The post-processing loop shared by both strategies succeeds
    and maps each accumulator value through: add the bias in signed
    32-bit arithmetic, clip negative results to zero, divide by [H_DIV]
    truncating towards zero, and replace a quotient above 127 by 127
    (otherwise store the quotient as a signed byte).  A quotient of 130
    is stored as 127, and -40 is clipped to 0 before the division. *)
Theorem hidden_post_processing (m : Model) (hacc hact : list Z) :
  H_DIV m ≠ 0%Z →
  HIDDEN_SIZE m ≤ length hacc →
  HIDDEN_SIZE m ≤ length (b1_int32 m) →
  HIDDEN_SIZE m ≤ length hact →
  (∃ hact', activate_hidden m hacc hact = Some hact'
     ∧ ∀ i a b, i < HIDDEN_SIZE m → hacc !! i = Some a →
         b1_int32 m !! i = Some b →
         ∃ v, hidden_activation m a b = Some v ∧ hact' !! i = Some v
           ∧ v = (let q := (Z.max 0 (int32 (a + b)) ÷ H_DIV m)%Z in
                  if decide (q > 127)%Z then 127%Z else int8 q))
  ∧ saturate 130 = 127%Z
  ∧ relu (-40) = 0%Z
  ∧ (∀ a b, add32 a b = 130%Z → H_DIV m = 1%Z →
       hidden_activation m a b = Some 127%Z)
  ∧ (∀ a b, add32 a b = (-40)%Z → hidden_activation m a b = Some 0%Z).
Proof.
  intros Hdiv Hacc Hb Hact. split_and!; [| by vm_compute | by vm_compute | |].
  - destruct (activate_hidden_spec m hacc hact) as (h & Hrun & _ & Hh); [done.. |].
    exists h. split; [done |]. intros i a b Hi Ha Hbi.
    exists (clipped (H_DIV m) a b). split_and!.
    + by apply hidden_activation_clipped.
    + rewrite Hh, decide_True by done. unfold get. by rewrite Ha, Hbi.
    + done.
  - intros a b Hab Hone. rewrite hidden_activation_clipped by done.
    unfold clipped. unfold add32 in Hab. rewrite Hab, Hone. by vm_compute.
  - intros a b Hab. rewrite hidden_activation_clipped by done.
    unfold clipped. unfold add32 in Hab. rewrite Hab.
    replace (Z.max 0 (-40)) with 0%Z by lia. rewrite Z.quot_0_l by done.
    by vm_compute.
Qed.

Lemma hidden_post_processing_witness :
  H_DIV tiny ≠ 0%Z
  ∧ HIDDEN_SIZE tiny ≤ length [60; -140]%Z
  ∧ HIDDEN_SIZE tiny ≤ length (b1_int32 tiny)
  ∧ HIDDEN_SIZE tiny ≤ length [0; 0]%Z
  ∧ ∃ hact', activate_hidden tiny [60; -140]%Z [0; 0]%Z = Some hact'.
Proof.
  assert (H_DIV tiny ≠ 0%Z) as H1 by (vm_compute; congruence).
  assert (HIDDEN_SIZE tiny ≤ 2) as H2 by (vm_compute; lia).
  split_and!; [done.. |].
  destruct (hidden_post_processing tiny [60; -140]%Z [0; 0]%Z H1 H2 H2 H2)
    as [(h & Hrun & _) _].
  by exists h.
Defined.

(** ** Sums *)

Lemma sumz_ext f g n : (∀ c, c < n → f c = g c) → sumz f n = sumz g n.
Proof.
  induction n as [|n IH]; intros Hfg; simpl; [done |].
  rewrite IH, Hfg by auto with lia. done.
Qed.

Lemma sumz_bounds (f : nat → Z) (n : nat) (lo hi : Z) :
  (∀ c, c < n → (lo ≤ f c ≤ hi)%Z) →
  (Z.of_nat n * lo ≤ sumz f n ≤ Z.of_nat n * hi)%Z.
Proof.
  induction n as [|n IH]; intros Hf; simpl; [lia |].
  pose proof (Hf n ltac:(lia)).
  specialize (IH ltac:(intros; apply Hf; lia)). lia.
Qed.

Lemma sumz_offset (f g : nat → Z) (n : nat) :
  (sumz (λ c, f c * g c) n - 128 * sumz g n = sumz (λ c, (f c - 128) * g c) n)%Z.
Proof. induction n as [|n IH]; simpl; lia. Qed.

(** A zero-padded window of eight columns extends the sum over the
    columns before it. *)
Lemma sumz_window (f : nat → Z) (cols lo n : nat) :
  Z.add (sumz f (lo `min` cols))
        (sumz (λ c, if decide (lo + c < cols) then f (lo + c) else 0%Z) n)
  = sumz f ((lo + n) `min` cols).
Proof.
  induction n as [|n IH]; simpl.
  - rewrite Nat.add_0_r. lia.
  - rewrite Z.add_assoc, IH. case_decide.
    + replace ((lo + n) `min` cols) with (lo + n) by lia.
      replace ((lo + Datatypes.S n) `min` cols) with (Datatypes.S (lo + n)) by lia.
      done.
    + replace ((lo + Datatypes.S n) `min` cols) with ((lo + n) `min` cols) by lia.
      lia.
Qed.

(** ** The direct dot product *)

Lemma byte_product_range w x :
  is_int8 w → is_uint8 x → (-32640 ≤ w * x ≤ 32385)%Z.
Proof. unfold is_int8, is_uint8. intros Hw Hx. nia. Qed.

Lemma mat_index rows cols r c : r < rows → c < cols → r * cols + c < rows * cols.
Proof. nia. Qed.

Lemma get_lookup (a : list Z) i : i < length a → a !! i = Some (get a i).
Proof.
  intros Hi. unfold get. by destruct (lookup_lt_is_Some_2 a i Hi) as [x ->].
Qed.

Lemma cpu_mv_u8_spec W inp rows cols out :
  rows * cols ≤ length W → cols ≤ length inp → rows ≤ length out →
  ∃ out', cpu_mv_u8 W inp rows cols out = Some out'
    ∧ length out' = length out
    ∧ ∀ i, out' !! i = if decide (i < rows)
                       then Some (int32 (dot W inp cols i cols))
                       else out !! i.
Proof.
  intros HW Hinp Hout. unfold cpu_mv_u8.
  destruct (for_range_inv
    (λ n (o : list Z), length o = length out ∧ ∀ i, o !! i =
        if decide (i < n) then Some (int32 (dot W inp cols i cols))
        else out !! i)
    0 rows
    (λ r out,
      acc ← for_range 0 1 cols (λ c acc,
               w ← W !! (r * cols + c); x ← inp !! c;
               Some (add32 acc (mul32 w x))) 0%Z;
      store r acc out) out)
    as (o & Hrun & Hlen & Ho); [lia | | | by eauto].
  - split; [done |]. intros i. by rewrite decide_False by lia.
  - intros r o [_ Hr] [Hlen Ho].
    destruct (for_range_inv
      (λ n acc, acc = int32 (dot W inp cols r n)) 0 cols
      (λ c acc, w ← W !! (r * cols + c); x ← inp !! c;
                Some (add32 acc (mul32 w x))) 0%Z)
      as (acc & -> & ->); [lia | done | |].
    { intros c acc [_ Hc] ->.
      pose proof (mat_index rows cols r c Hr Hc).
      rewrite (get_lookup W), (get_lookup inp) by lia. simpl.
      eexists; split; [done |].
      unfold add32, mul32, dot. simpl.
      by rewrite int32_add_l, int32_add_r. }
    simpl. rewrite store_Some by lia. eexists; split; [done |].
    split; [by rewrite length_insert |]. intros i.
    destruct (decide (i = r)) as [-> |].
    + rewrite list_lookup_insert_eq by lia. by rewrite decide_True by lia.
    + rewrite list_lookup_insert_ne by done. rewrite Ho.
      repeat case_decide; done || lia.
Qed.

(** ** Packing the input bytes *)

Lemma land_shiftl_disjoint a b n :
  (0 ≤ n)%Z → (0 ≤ a < 2 ^ n)%Z → Z.land a (Z.shiftl b n) = 0%Z.
Proof.
  intros Hn Ha. apply Z.bits_inj'. intros k Hk.
  rewrite Z.land_spec, Z.bits_0.
  destruct (decide (k < n)%Z).
  - rewrite Z.shiftl_spec_low by lia. apply andb_false_r.
  - rewrite <- (Z.mod_small a (2 ^ n)) by lia.
    rewrite Z.mod_pow2_bits_high by lia. done.
Qed.

Lemma lor_shiftl a b n :
  (0 ≤ n)%Z → (0 ≤ a < 2 ^ n)%Z → Z.lor a (Z.shiftl b n) = (a + b * 2 ^ n)%Z.
Proof.
  intros Hn Ha. pose proof (land_shiftl_disjoint a b n Hn Ha) as Hdis.
  rewrite <- Z.lxor_lor, <- Z.add_nocarry_lxor by done.
  by rewrite Z.shiftl_mul_pow2.
Qed.

Lemma pack_bytes b0 b1 b2 b3 :
  is_uint8 b0 → is_uint8 b1 → is_uint8 b2 → is_uint8 b3 →
  uint32 (Z.lor (Z.lor (Z.lor b0 (Z.shiftl b1 8)) (Z.shiftl b2 16))
                (Z.shiftl b3 24))
  = (b0 + b1 * 2 ^ 8 + b2 * 2 ^ 16 + b3 * 2 ^ 24)%Z.
Proof.
  unfold is_uint8. intros H0 H1 H2 H3.
  rewrite (lor_shiftl b0) by lia.
  rewrite (lor_shiftl (b0 + _)) by lia.
  rewrite (lor_shiftl (b0 + _ + _)) by lia.
  apply uint32_id. lia.
Qed.

Lemma unpack_bytes b0 b1 b2 b3 (k : nat) :
  is_uint8 b0 → is_uint8 b1 → is_uint8 b2 → is_uint8 b3 → k < 4 →
  Z.land (Z.shiftr (b0 + b1 * 2 ^ 8 + b2 * 2 ^ 16 + b3 * 2 ^ 24)
                   (8 * Z.of_nat k)) 255
  = default 0%Z ([b0; b1; b2; b3] !! k).
Proof.
  unfold is_uint8. intros H0 H1 H2 H3 Hk.
  change 255%Z with (Z.ones 8). rewrite Z.land_ones, Z.shiftr_div_pow2 by lia.
  destruct k as [|[|[|[|k]]]]; [| | | | lia]; simpl;
    change (2 ^ 0)%Z with 1%Z; change (2 ^ 8)%Z with 256%Z;
    change (2 ^ 16)%Z with 65536%Z; change (2 ^ 24)%Z with 16777216%Z;
    Z.div_mod_to_equations; lia.
Qed.

(** ** The tile operation, for any accelerator *)

Lemma get_uint8 inp i : Forall is_uint8 inp → is_uint8 (get inp i).
Proof.
  intros Hall. unfold get. destruct (inp !! i) as [x|] eqn:Hx; simpl.
  - by eapply Forall_lookup_1.
  - unfold is_uint8. lia.
Qed.

Lemma get_int8 W i : Forall is_int8 W → is_int8 (get W i).
Proof.
  intros Hall. unfold get. destruct (W !! i) as [x|] eqn:Hx; simpl.
  - by eapply Forall_lookup_1.
  - unfold is_int8. lia.
Qed.

Lemma padded_uint8 inp cols c_start c :
  Forall is_uint8 inp → is_uint8 (padded inp cols c_start c).
Proof.
  intros. unfold padded. case_decide; [by apply get_uint8 |].
  unfold is_uint8. lia.
Qed.

Lemma g_val_conductance W rows cols r_start c_start r c :
  Forall is_int8 W →
  g_val W rows cols r_start c_start r c
  = conductance W rows cols r_start c_start r c.
Proof.
  intros HW. unfold g_val, conductance. case_decide; [| done].
  pose proof (get_int8 W ((r_start + r) * cols + (c_start + c)) HW) as Hw.
  unfold is_int8 in Hw. unfold add32.
  rewrite int32_id by (unfold is_int32; lia). apply uint32_id. lia.
Qed.

Lemma conductance_range W rows cols r_start c_start r c :
  Forall is_int8 W →
  (0 ≤ conductance W rows cols r_start c_start r c ≤ 255)%Z.
Proof.
  intros HW. unfold conductance. case_decide; [| lia].
  pose proof (get_int8 W ((r_start + r) * cols + (c_start + c)) HW) as Hw.
  unfold is_int8 in Hw. lia.
Qed.

Section Tile.
Context {D : Type} `{Mmio D}.
Variables (W inp : list Z) (rows cols r_start c_start : nat).

Lemma program_cell_eq r c d :
  rows * cols ≤ length W →
  program_cell W rows cols r_start c_start r c d
  = Some (mmio_write IMC_PROG_ADDR (Z.of_nat (r * 8 + c))
            (mmio_write IMC_PROG_DATA
               (g_val W rows cols r_start c_start r c) d)).
Proof.
  intros W_length. unfold program_cell, g_val. case_decide as Hin; [| done].
  destruct Hin as [Hr Hc].
  pose proof (mat_index rows cols _ _ Hr Hc).
  by rewrite (get_lookup W) by lia.
Qed.

(** Programming visits the 64 cells in row-major order; [Q k] is
    any property established once the first [k] cells are written. *)
Lemma program_tile_inv (Q : nat → D → Prop) d :
  rows * cols ≤ length W →
  Q 0 d →
  (∀ r c d, r < 8 → c < 8 → Q (r * 8 + c) d →
     Q (Datatypes.S (r * 8 + c))
       (mmio_write IMC_PROG_ADDR (Z.of_nat (r * 8 + c))
          (mmio_write IMC_PROG_DATA
             (g_val W rows cols r_start c_start r c) d))) →
  ∃ d1, program_tile W rows cols r_start c_start d = Some d1 ∧ Q 64 d1.
Proof.
  intros W_length HQ Hstep. unfold program_tile.
  apply (for_range_inv (λ r d, Q (r * 8) d)); [lia | done |].
  intros r d' [_ Hr] HQr.
  destruct (for_range_inv (λ c d, Q (r * 8 + c) d) 0 8
    (λ c d, program_cell W rows cols r_start c_start r c d) d')
    as (d'' & -> & HQ''); [lia | by rewrite Nat.add_0_r | |].
  - intros c e [_ Hc] HQc. rewrite program_cell_eq by done.
    eexists; split; [done |].
    replace (r * 8 + Datatypes.S c) with (Datatypes.S (r * 8 + c)) by lia.
    by apply Hstep.
  - eexists; split; [done |].
    by replace (Datatypes.S r * 8) with (r * 8 + 8) by lia.
Qed.

Lemma gather_inputs_spec :
  cols ≤ length inp →
  ∃ v sum_v, gather_inputs inp cols c_start = Some (v, sum_v)
    ∧ length v = 8
    ∧ (∀ c, c < 8 → v !! c = Some (padded inp cols c_start c))
    ∧ (Forall is_uint8 inp → sum_v = sumz (padded inp cols c_start) 8).
Proof.
  intros inp_length. unfold gather_inputs.
  destruct (for_range_inv
    (λ n '(v, sum_v), length v = 8
       ∧ (∀ c, c < 8 → v !! c =
            Some (if decide (c < n) then padded inp cols c_start c else 0%Z))
       ∧ (Forall is_uint8 inp → sum_v = sumz (padded inp cols c_start) n))
    0 8
    (λ c '(v, sum_v),
      if decide (c_start + c < cols) then
        x ← inp !! (c_start + c);
        v' ← store c x v;
        Some (v', uint32 (sum_v + x))
      else Some (v, sum_v)) (replicate 8 0%Z, 0%Z))
    as ([v sum_v] & Hrun & Hlen & Hv & Hsum); [lia | | |].
  - split_and!; [done | | done]. intros c Hc.
    rewrite lookup_replicate_2 by done. by rewrite decide_False by lia.
  - intros c [v sum_v] [_ Hc] (Hlen & Hv & Hsum). case_decide as Hin.
    + rewrite (get_lookup inp) by lia. simpl.
      rewrite store_Some by lia. simpl. eexists; split; [done |].
      split_and!; [by rewrite length_insert | |].
      * intros c' Hc'. destruct (decide (c' = c)) as [-> |].
        -- rewrite list_lookup_insert_eq by lia.
           rewrite decide_True by lia. unfold padded.
           by rewrite decide_True by done.
        -- rewrite list_lookup_insert_ne by done. rewrite Hv by done.
           repeat case_decide; done || lia.
      * intros Hall. rewrite Hsum by done. simpl.
        unfold padded at 3. rewrite decide_True by done.
        pose proof (sumz_bounds (padded inp cols c_start) c 0 255
                      (λ k _, padded_uint8 inp cols c_start k Hall)).
        pose proof (get_uint8 inp (c_start + c) Hall) as Hx.
        unfold is_uint8 in Hx. apply uint32_id. lia.
    + eexists; split; [done |]. split_and!; [done | |].
      * intros c' Hc'. rewrite Hv by done.
        destruct (decide (c' = c)) as [-> |].
        -- rewrite decide_False, decide_True by lia. unfold padded.
           by rewrite decide_False by done.
        -- repeat case_decide; done || lia.
      * intros Hall. rewrite Hsum by done. simpl.
        unfold padded at 3. rewrite decide_False by done. lia.
  - exists v, sum_v. split_and!; [done.. | |  done].
    intros c Hc. rewrite Hv by done. by rewrite decide_True by done.
Qed.

Lemma pack4_eq v k :
  length v = 8 → k + 3 < 8 →
  pack4 v k = Some (uint32 (Z.lor (Z.lor (Z.lor (get v k)
                (Z.shiftl (get v (k + 1)) 8))
                (Z.shiftl (get v (k + 2)) 16))
                (Z.shiftl (get v (k + 3)) 24))).
Proof.
  intros Hlen Hk. unfold pack4.
  by rewrite !(get_lookup v) by lia.
Qed.

Lemma drive_inputs_eq v d :
  length v = 8 →
  ∃ lo hi, pack4 v 0 = Some lo ∧ pack4 v 4 = Some hi
    ∧ drive_inputs v d
      = Some (mmio_write IMC_V_INPUT_HI hi (mmio_write IMC_V_INPUT_LO lo d)).
Proof.
  intros Hlen. unfold drive_inputs.
  rewrite (pack4_eq v 0), (pack4_eq v 4) by (done || lia).
  by eexists _, _.
Qed.

(** Reading back: only the rows of the tile that lie inside the
    matrix are touched. *)
Lemma read_and_correct_spec sum_v d out :
  rows ≤ length out →
  ∃ out', read_and_correct rows r_start sum_v d out = Some out'
    ∧ length out' = length out
    ∧ ∀ i, out' !! i =
        if decide (r_start ≤ i < r_start + 8 ∧ i < rows)
        then Some (add32 (get out i)
               (true_mac (mmio_read (IMC_RESULT (i - r_start)) d) sum_v))
        else out !! i.
Proof.
  intros Hout. unfold read_and_correct.
  destruct (for_range_inv
    (λ n (o : list Z), length o = length out ∧ ∀ i, o !! i =
        if decide (r_start ≤ i < r_start + n ∧ i < rows)
        then Some (add32 (get out i)
               (true_mac (mmio_read (IMC_RESULT (i - r_start)) d) sum_v))
        else out !! i)
    0 8
    (λ r out,
      if decide (r_start + r < rows) then
        o ← out !! (r_start + r);
        store (r_start + r)
          (add32 o (true_mac (mmio_read (IMC_RESULT r) d) sum_v)) out
      else Some out) out)
    as (o & Hrun & Hlen & Ho); [lia | | | by eauto].
  - split; [done |]. intros i. by rewrite decide_False by lia.
  - intros r o [_ Hr] [Hlen Ho]. case_decide as Hin.
    + rewrite Ho, decide_False by lia.
      rewrite (get_lookup out) by lia. simpl.
      rewrite store_Some by lia. eexists; split; [done |].
      split; [by rewrite length_insert |]. intros i.
      destruct (decide (i = r_start + r)) as [-> |].
      * rewrite list_lookup_insert_eq by lia.
        rewrite decide_True by lia.
        by replace (r_start + r - r_start) with r by lia.
      * rewrite list_lookup_insert_ne by done. rewrite Ho.
        repeat case_decide; done || lia.
    + eexists; split; [done |]. split; [done |]. intros i. rewrite Ho.
      repeat case_decide; done || lia.
Qed.
End Tile.

(** ** The crossbar *)

Lemma xb_program_cell (r c : nat) (g : Z) (d : Crossbar) :
  r < 8 → c < 8 → (0 ≤ g ≤ 255)%Z →
  ∀ r' c', r' < 8 → c' < 8 →
    xb_cell (mmio_write IMC_PROG_ADDR (Z.of_nat (r * 8 + c))
               (mmio_write IMC_PROG_DATA g d)) r' c'
    = if decide (r' * 8 + c' = r * 8 + c) then g else xb_cell d r' c'.
Proof.
  intros Hr Hc Hg r' c' Hr' Hc'. simpl. unfold xb_write at 2.
  rewrite decide_True by done. unfold xb_write.
  rewrite decide_False, decide_True by done. simpl.
  rewrite (uint32_id (Z.of_nat _)) by lia. rewrite Nat2Z.id.
  rewrite decide_True by lia. unfold xb_cell. simpl.
  change 255%Z with (Z.ones 8). rewrite Z.land_ones by lia.
  rewrite (uint32_id g) by lia. rewrite (Z.mod_small g) by lia.
  case_decide as Heq.
  - by rewrite Heq, lookup_insert_eq.
  - by rewrite lookup_insert_ne.
Qed.

Lemma xb_read_row (r : nat) (d : Crossbar) :
  r < 8 → mmio_read (IMC_RESULT r) d = xb_row d r.
Proof.
  intros Hr. simpl. unfold xb_read, IMC_RESULT.
  rewrite decide_True.
  - f_equal. replace (1040 + Z.of_nat r * 4 - 1040)%Z with (Z.of_nat r * 4)%Z by lia.
    rewrite Z.div_mul by lia. apply Nat2Z.id.
  - split; [lia |].
    replace (1040 + Z.of_nat r * 4 - 1040)%Z with (Z.of_nat r * 4)%Z by lia.
    apply Z.mod_mul. lia.
Qed.

Section CrossbarTile.
Variables (W inp : list Z) (rows cols r_start c_start : nat).

Lemma xb_program_tile (d : Crossbar) :
  rows * cols ≤ length W → Forall is_int8 W →
  ∃ d1, program_tile W rows cols r_start c_start d = Some d1
    ∧ ∀ r c, r < 8 → c < 8 →
        xb_cell d1 r c = conductance W rows cols r_start c_start r c.
Proof.
  intros W_length W_int8.
  destruct (program_tile_inv W rows cols r_start c_start
    (λ k d, ∀ r c, r < 8 → c < 8 → r * 8 + c < k →
       xb_cell d r c = conductance W rows cols r_start c_start r c) d)
    as (d1 & Hrun & Hcells).
  - done.
  - intros; lia.
  - intros r c e Hr Hc He r' c' Hr' Hc' Hlt.
    rewrite g_val_conductance by done.
    rewrite xb_program_cell
      by (done || by apply conductance_range).
    case_decide as Heq.
    + by replace r' with r by lia; replace c' with c by lia.
    + apply He; lia.
  - exists d1. split; [done |]. intros r c Hr Hc. apply Hcells; lia.
Qed.

Lemma xb_drive_inputs (v : list Z) (d : Crossbar) :
  Forall is_uint8 inp →
  length v = 8 →
  (∀ c, c < 8 → v !! c = Some (padded inp cols c_start c)) →
  ∃ d2, drive_inputs v d = Some d2
    ∧ xb_cells d2 = xb_cells d
    ∧ ∀ c, c < 8 → xb_input d2 c = padded inp cols c_start c.
Proof.
  intros inp_uint8 Hlen Hv.
  assert (∀ c, c < 8 → get v c = padded inp cols c_start c) as Hget.
  { intros c Hc. unfold get. by rewrite Hv. }
  assert (∀ c, c < 8 → is_uint8 (get v c)) as Hbyte.
  { intros c Hc. rewrite Hget by done. by apply padded_uint8. }
  destruct (drive_inputs_eq v d Hlen) as (lo & hi & Hlo & Hhi & ->).
  rewrite pack4_eq in Hlo, Hhi by (done || lia).
  rewrite pack_bytes in Hlo, Hhi by (apply Hbyte; lia).
  injection Hlo as <-. injection Hhi as <-.
  eexists; split; [done |]. simpl. unfold xb_write at 2.
  rewrite !decide_False, decide_True by done. unfold xb_write.
  rewrite !decide_False, decide_True by done. simpl.
  split; [done |]. intros c Hc. unfold xb_input. simpl.
  assert (∀ k, k + 3 < 8 →
    uint32 (get v k + get v (k + 1) * 2 ^ 8 + get v (k + 2) * 2 ^ 16
            + get v (k + 3) * 2 ^ 24)
    = (get v k + get v (k + 1) * 2 ^ 8 + get v (k + 2) * 2 ^ 16
       + get v (k + 3) * 2 ^ 24)%Z) as Hword.
  { intros k Hk. apply uint32_id.
    pose proof (Hbyte k ltac:(lia)). pose proof (Hbyte (k + 1) ltac:(lia)).
    pose proof (Hbyte (k + 2) ltac:(lia)). pose proof (Hbyte (k + 3) ltac:(lia)).
    unfold is_uint8 in *. lia. }
  pose proof (Hword 0 ltac:(lia)) as Hw0.
  pose proof (Hword 4 ltac:(lia)) as Hw4. simpl Nat.add in Hw0, Hw4.
  rewrite <- Hget by done. case_decide as Hc4.
  - rewrite Hw0.
    rewrite unpack_bytes by (done || apply Hbyte; lia).
    by destruct c as [|[|[|[|c]]]]; [.. | lia].
  - rewrite Hw4.
    rewrite unpack_bytes by (lia || apply Hbyte; lia).
    destruct c as [|[|[|[|[|[|[|[|c]]]]]]]]; try lia; done.
Qed.

(** What the raw read-back of a tile row is worth, given a programmed
    and driven crossbar. *)
Lemma xb_row_biased (d : Crossbar) (r : nat) :
  Forall is_int8 W → Forall is_uint8 inp →
  (∀ r c, r < 8 → c < 8 →
     xb_cell d r c = conductance W rows cols r_start c_start r c) →
  (∀ c, c < 8 → xb_input d c = padded inp cols c_start c) →
  r < 8 →
  xb_row d r = (tile_dot W inp rows cols r_start c_start r
                + 128 * sumz (padded inp cols c_start) 8)%Z
  ∧ (0 ≤ xb_row d r ≤ 520200)%Z.
Proof.
  intros W_int8 inp_uint8 Hcell Hinput Hr. unfold xb_row.
  rewrite (sumz_ext _ (λ c, conductance W rows cols r_start c_start r c
                            * padded inp cols c_start c)%Z)
    by (intros c Hc; by rewrite Hcell, Hinput).
  match goal with |- context [uint32 (sumz ?f 8)] =>
    pose proof (sumz_bounds f 8 0 65025) as Hb end.
  simpl Z.of_nat in Hb. rewrite uint32_id.
  - split.
    + pose proof (sumz_offset (conductance W rows cols r_start c_start r)
                    (padded inp cols c_start) 8) as Hoff.
      assert (tile_dot W inp rows cols r_start c_start r
              = sumz (λ c, (conductance W rows cols r_start c_start r c - 128)
                           * padded inp cols c_start c)%Z 8) as ->; [| lia].
      unfold tile_dot. apply sumz_ext. intros c _.
      unfold conductance, padded.
      destruct (decide (_ ∧ _)) as [[? ?] |];
        destruct (decide (c_start + c < cols)); lia.
    + apply Hb. intros c _.
      pose proof (conductance_range W rows cols r_start c_start r c W_int8).
      pose proof (padded_uint8 inp cols c_start c inp_uint8) as Hp.
      unfold is_uint8 in Hp. nia.
  - assert (0 ≤ sumz (λ c, conductance W rows cols r_start c_start r c
                           * padded inp cols c_start c) 8 ≤ 520200)%Z; [| lia].
    apply Hb. intros c _.
    pose proof (conductance_range W rows cols r_start c_start r c W_int8).
    pose proof (padded_uint8 inp cols c_start c inp_uint8) as Hp.
    unfold is_uint8 in Hp. nia.
Qed.

Lemma sum_v_range :
  Forall is_uint8 inp → (0 ≤ sumz (padded inp cols c_start) 8 ≤ 2040)%Z.
Proof.
  intros inp_uint8.
  pose proof (sumz_bounds (padded inp cols c_start) 8 0 255) as Hb.
  simpl Z.of_nat in Hb. apply Hb. intros c _.
  apply (padded_uint8 inp cols c_start c inp_uint8).
Qed.

End CrossbarTile.

Lemma true_mac_exact raw sum_v :
  (0 ≤ raw ≤ 520200)%Z → (0 ≤ sum_v ≤ 2040)%Z →
  true_mac raw sum_v = (raw - 128 * sum_v)%Z.
Proof.
  intros Hraw Hsum. unfold true_mac, sub32, mul32.
  rewrite (int32_id raw), (int32_id sum_v) by (unfold is_int32; lia).
  rewrite (int32_id (128 * sum_v)) by (unfold is_int32; lia).
  apply int32_id. unfold is_int32. lia.
Qed.

(** One tile operation on the crossbar: every row of the tile that
    lies inside the matrix gains exactly its share of the dot product. *)
Lemma xb_tile_mac W inp rows cols r_start c_start out (d : Crossbar) :
  rows * cols ≤ length W → cols ≤ length inp → rows ≤ length out →
  Forall is_int8 W → Forall is_uint8 inp →
  ∃ out' d', imc_tile_mac W rows cols inp r_start c_start (out, d)
             = Some (out', d')
    ∧ length out' = length out
    ∧ ∀ i, out' !! i =
        if decide (r_start ≤ i < r_start + 8 ∧ i < rows)
        then Some (add32 (get out i)
                     (tile_dot W inp rows cols r_start c_start (i - r_start)))
        else out !! i.
Proof.
  intros HW Hinp Hout HW8 Hinp8. unfold imc_tile_mac.
  destruct (xb_program_tile W rows cols r_start c_start d HW HW8)
    as (d1 & -> & Hcells). simpl.
  destruct (gather_inputs_spec inp cols c_start Hinp)
    as (v & sum_v & -> & Hlen & Hv & Hsum). simpl.
  specialize (Hsum Hinp8).
  destruct (xb_drive_inputs inp cols c_start v d1 Hinp8 Hlen Hv)
    as (d2 & -> & Hsame & Hinput). simpl.
  destruct (read_and_correct_spec rows r_start sum_v d2 out Hout)
    as (out' & -> & Hlen' & Hout'). simpl. subst sum_v.
  exists out', d2. split_and!; [done.. |]. intros i. rewrite Hout'.
  destruct (decide (_ ∧ _)) as [[? ?] |]; [| done].
  rewrite xb_read_row by lia.
  destruct (xb_row_biased W inp rows cols r_start c_start d2 (i - r_start))
    as [Hraw Hrange]; [done.. | | done | lia |].
  { intros r c Hr Hc. unfold xb_cell. rewrite Hsame. by apply Hcells. }
  rewrite true_mac_exact by (done || by apply sum_v_range).
  do 2 f_equal. lia.
Qed.

(** ** The layer executor on the crossbar *)

Lemma tile_dot_extends W inp rows cols r_start c_start i :
  r_start ≤ i < rows →
  (dot W inp cols i (c_start `min` cols)
   + tile_dot W inp rows cols r_start c_start (i - r_start))%Z
  = dot W inp cols i ((c_start + 8) `min` cols).
Proof.
  intros Hi. unfold dot, tile_dot.
  rewrite <- (sumz_window _ cols c_start 8). f_equal.
  apply sumz_ext. intros c _.
  replace (r_start + (i - r_start)) with i by lia.
  destruct (decide (_ ∧ _)) as [[? ?] |];
    destruct (decide (c_start + c < cols)); done || lia.
Qed.

Lemma xb_layer_execution W inp rows cols out (d : Crossbar) :
  rows * cols ≤ length W → cols ≤ length inp → rows ≤ length out →
  Forall is_int8 W → Forall is_uint8 inp →
  ∃ out' d', imc_layer_execution W inp rows cols (out, d) = Some (out', d')
    ∧ length out' = length out
    ∧ ∀ i, out' !! i = if decide (i < rows)
                       then Some (int32 (dot W inp cols i cols))
                       else out !! i.
Proof.
  intros HW Hinp Hout HW8 Hinp8. unfold imc_layer_execution.
  (* line 111: clear the accumulator *)
  destruct (for_range_inv
    (λ n (o : list Z), length o = length out ∧ ∀ i, o !! i =
        if decide (i < n) then Some 0%Z else out !! i)
    0 rows (λ r out, store r 0%Z out) out)
    as (out0 & -> & Hlen0 & Hout0); [lia | | |].
  { split; [done |]. intros i. by rewrite decide_False by lia. }
  { intros r o [_ Hr] [Hlen Ho]. rewrite store_Some by lia.
    eexists; split; [done |]. split; [by rewrite length_insert |].
    intros i. destruct (decide (i = r)) as [-> |].
    - rewrite list_lookup_insert_eq by lia. by rewrite decide_True by lia.
    - rewrite list_lookup_insert_ne by done. rewrite Ho.
      repeat case_decide; done || lia. }
  simpl.
  (* lines 112-116: the column bands *)
  destruct (for_tiles_inv
    (λ cs '(o, _), length o = length out ∧ ∀ i, o !! i =
        if decide (i < rows)
        then Some (int32 (dot W inp cols i (cs `min` cols)))
        else out !! i)
    cols
    (λ cs (st : list Z * Crossbar),
      for_range 0 8 rows (λ rs st,
        imc_tile_mac W rows cols inp rs cs st) st) (out0, d))
    as (cs & [o e] & -> & Hcs & Hlen & Ho).
  - split; [done |]. intros i. rewrite Hout0. by case_decide.
  - intros cs [o e] Hcs [Hlen Ho].
    (* the row bands of one column band *)
    destruct (for_tiles_inv
      (λ rs '(o', _), length o' = length out ∧ ∀ i, o' !! i =
          if decide (i < rows)
          then Some (int32 (dot W inp cols i
                      ((if decide (i < rs) then cs + 8 else cs) `min` cols)))
          else out !! i)
      rows
      (λ rs st, imc_tile_mac W rows cols inp rs cs st) (o, e))
      as (rs & [o' e'] & -> & Hrs & Hlen' & Ho').
    + split; [done |]. intros i. rewrite Ho.
      by rewrite (decide_False (P := i < 0)) by lia.
    + intros rs [o1 e1] Hrs [Hlen1 Ho1].
      destruct (xb_tile_mac W inp rows cols rs cs o1 e1)
        as (o2 & e2 & -> & Hlen2 & Ho2); [lia.. | done | done |].
      eexists; split; [done |]. split; [lia |]. intros i. rewrite Ho2.
      destruct (decide (_ ∧ _)) as [[? ?] |].
      * rewrite !decide_True by lia. unfold get. rewrite Ho1.
        rewrite decide_True, decide_False by lia. simpl. unfold add32.
        rewrite int32_add_l. by rewrite tile_dot_extends by lia.
      * rewrite Ho1. destruct (decide (i < rows)); [| done].
        destruct (decide (i < rs)), (decide (i < rs + 8)); done || lia.
    + eexists; split; [done |]. split; [done |]. intros i. rewrite Ho'.
      destruct (decide (i < rows)); [| done].
      by rewrite decide_True by lia.
  - exists o, e. split_and!; [done.. |]. intros i. rewrite Ho.
    destruct (decide (i < rows)); [| done].
    by replace (cs `min` cols) with cols by lia.
Qed.

(** C1.  On the crossbar, the tiled layer execution succeeds and leaves
    in the accumulator exactly what the direct CPU dot product computes,
    for every number of rows and columns (sub-tile, exact-tile and
    multi-tile with remainder alike), every signed 8-bit weight matrix
    and every unsigned 8-bit input vector. *)
Theorem imc_layer_matches_cpu (W inp : list Z) (rows cols : nat)
    (out : list Z) (d : Crossbar) :
  rows * cols ≤ length W → cols ≤ length inp → rows ≤ length out →
  Forall is_int8 W → Forall is_uint8 inp →
  ∃ out' d',
    imc_layer_execution W inp rows cols (out, d) = Some (out', d')
    ∧ cpu_mv_u8 W inp rows cols out = Some out'.
Proof.
  intros HW Hinp Hout HW8 Hinp8.
  destruct (xb_layer_execution W inp rows cols out d)
    as (o1 & d' & Himc & Hlen1 & Ho1); [done.. |].
  destruct (cpu_mv_u8_spec W inp rows cols out)
    as (o2 & Hcpu & Hlen2 & Ho2); [done.. |].
  exists o1, d'. split; [done |]. rewrite Hcpu. f_equal.
  apply list_eq. intros i. by rewrite Ho1, Ho2.
Qed.

(** Range checks on concrete arrays. *)
Ltac in_range :=
  repeat first
    [ apply Forall_nil_2
    | apply Forall_cons_2; [unfold is_int8, is_uint8; lia |] ].

Lemma imc_layer_matches_cpu_witness :
  let W := [1; -2; 3; 4; 5; -6; 7; -8; 9; -128; 127; 0; 55; -1; 2; 3; 4; -5]%Z in
  let inp := [10; 20; 30; 0; 255; 255; 1; 2; 3]%Z in
  2 * 9 ≤ length W ∧ 9 ≤ length inp ∧ 2 ≤ length [7; 7; 7]%Z
  ∧ Forall is_int8 W ∧ Forall is_uint8 inp
  ∧ ∃ out' d',
      imc_layer_execution W inp 2 9 ([7; 7; 7]%Z, xb_reset) = Some (out', d')
      ∧ cpu_mv_u8 W inp 2 9 [7; 7; 7]%Z = Some out'.
Proof.
  intros W inp.
  assert (Forall is_int8 W) as HW by (subst W; in_range).
  assert (Forall is_uint8 inp) as Hinp by (subst inp; in_range).
  split_and!; [simpl; lia.. | done | done |].
  apply (imc_layer_matches_cpu W inp 2 9 [7; 7; 7]%Z xb_reset);
    simpl; done || lia.
Defined.

(** ** The accumulator rows a tile operation touches *)

Section Frame.
Context {D : Type} `{Mmio D}.
Variables (W inp : list Z) (rows cols : nat).

Lemma imc_tile_mac_frame r_start c_start out (d : D) :
  rows * cols ≤ length W → cols ≤ length inp → rows ≤ length out →
  ∃ out' d', imc_tile_mac W rows cols inp r_start c_start (out, d)
             = Some (out', d')
    ∧ length out' = length out
    ∧ ∀ i, ¬ (r_start ≤ i < r_start + 8 ∧ i < rows) → out' !! i = out !! i.
Proof.
  intros HW Hinp Hout. unfold imc_tile_mac.
  destruct (program_tile_inv W rows cols r_start c_start (λ _ _, True) d)
    as (d1 & -> & _); [done.. |]. simpl.
  destruct (gather_inputs_spec inp cols c_start Hinp)
    as (v & sum_v & -> & Hlen & _). simpl.
  destruct (drive_inputs_eq v d1 Hlen) as (lo & hi & _ & _ & ->). simpl.
  destruct (read_and_correct_spec rows r_start sum_v
              (mmio_write IMC_V_INPUT_HI hi (mmio_write IMC_V_INPUT_LO lo d1))
              out Hout)
    as (out' & -> & Hlen' & Hout'). simpl.
  eexists _, _. split_and!; [done.. |]. intros i Hi.
  by rewrite Hout', decide_False.
Qed.

Lemma imc_layer_execution_frame out (d : D) :
  rows * cols ≤ length W → cols ≤ length inp → rows ≤ length out →
  ∃ out' d', imc_layer_execution W inp rows cols (out, d) = Some (out', d')
    ∧ length out' = length out
    ∧ ∀ i, rows ≤ i → out' !! i = out !! i.
Proof.
  intros HW Hinp Hout. unfold imc_layer_execution.
  destruct (for_range_inv
    (λ n (o : list Z), length o = length out
       ∧ ∀ i, rows ≤ i → o !! i = out !! i)
    0 rows (λ r out, store r 0%Z out) out)
    as (out0 & -> & Hlen0 & Hout0); [lia | done | |].
  { intros r o [_ Hr] [Hlen Ho]. rewrite store_Some by lia.
    eexists; split; [done |]. split; [by rewrite length_insert |].
    intros i Hi. rewrite list_lookup_insert_ne by lia. by apply Ho. }
  simpl.
  destruct (for_tiles_inv
    (λ _ '(o, _), length o = length out ∧ ∀ i, rows ≤ i → o !! i = out !! i)
    cols
    (λ cs (st : list Z * D),
      for_range 0 8 rows (λ rs st,
        imc_tile_mac W rows cols inp rs cs st) st) (out0, d))
    as (cs & [o e] & -> & _ & Hlen & Ho); [done | |].
  - intros cs [o e] _ [Hlen Ho].
    destruct (for_tiles_inv
      (λ _ '(o', _), length o' = length out
         ∧ ∀ i, rows ≤ i → o' !! i = out !! i)
      rows (λ rs st, imc_tile_mac W rows cols inp rs cs st) (o, e))
      as (rs & [o' e'] & -> & _ & Hlen' & Ho'); [done | |].
    + intros rs [o1 e1] _ [Hlen1 Ho1].
      destruct (imc_tile_mac_frame rs cs o1 e1)
        as (o2 & e2 & -> & Hlen2 & Ho2); [lia.. |].
      eexists; split; [done |]. split; [lia |]. intros i Hi.
      rewrite Ho2 by lia. by apply Ho1.
    + eexists; split; [done |]. done.
  - by exists o, e.
Qed.
End Frame.

(** C9.  Whatever the accelerator returns, a tile operation succeeds on
    an accumulator of [rows] entries or more, so it stores nothing at an
    index at or beyond [rows] (such a store would fail when the
    accumulator has exactly [rows] entries), and it leaves every entry
    outside rows [r_start .. r_start + 7] below [rows] as it was; the
    layer execution as a whole leaves every entry at an index at or
    beyond [rows] as it was. *)
Theorem accumulator_rows_frame {D : Type} `{Mmio D} (W inp : list Z)
    (rows cols : nat) (out : list Z) (d : D) :
  rows * cols ≤ length W → cols ≤ length inp → rows ≤ length out →
  (∀ r_start c_start,
     ∃ out' d', imc_tile_mac W rows cols inp r_start c_start (out, d)
                = Some (out', d')
       ∧ length out' = length out
       ∧ ∀ i, ¬ (r_start ≤ i < r_start + 8 ∧ i < rows) →
              out' !! i = out !! i)
  ∧ (∃ out' d', imc_layer_execution W inp rows cols (out, d) = Some (out', d')
       ∧ length out' = length out
       ∧ ∀ i, rows ≤ i → out' !! i = out !! i).
Proof.
  intros HW Hinp Hout. split.
  - intros r_start c_start. by apply imc_tile_mac_frame.
  - by apply imc_layer_execution_frame.
Qed.

Lemma accumulator_rows_frame_witness :
  let W := [1; -2; 3; 4; 5; -6]%Z in
  let inp := [10; 20; 30]%Z in
  2 * 3 ≤ length W ∧ 3 ≤ length inp ∧ 2 ≤ length [7; 7]%Z
  ∧ ∃ out' d', imc_layer_execution W inp 2 3 ([7; 7]%Z, xb_reset)
               = Some (out', d')
      ∧ length out' = 2.
Proof.
  intros W inp. split_and!; [simpl; lia.. |].
  destruct (accumulator_rows_frame W inp 2 3 [7; 7]%Z xb_reset)
    as (_ & out' & d' & Hrun & Hlen & _); [simpl; lia.. |].
  by exists out', d'.
Defined.

(** ** Offset correction and padding on the crossbar *)

(** The crossbar once a tile is programmed and its inputs are driven. *)
Lemma xb_tile_setup W inp rows cols r_start c_start (d : Crossbar) :
  rows * cols ≤ length W → cols ≤ length inp →
  Forall is_int8 W → Forall is_uint8 inp →
  ∃ d1 v sum_v d2,
    program_tile W rows cols r_start c_start d = Some d1
    ∧ gather_inputs inp cols c_start = Some (v, sum_v)
    ∧ drive_inputs v d1 = Some d2
    ∧ sum_v = sumz (padded inp cols c_start) 8
    ∧ (∀ c, c < 8 → v !! c = Some (padded inp cols c_start c))
    ∧ (∀ r c, r < 8 → c < 8 →
         xb_cell d2 r c = conductance W rows cols r_start c_start r c)
    ∧ (∀ c, c < 8 → xb_input d2 c = padded inp cols c_start c).
Proof.
  intros HW Hinp HW8 Hinp8.
  destruct (xb_program_tile W rows cols r_start c_start d HW HW8)
    as (d1 & Hprog & Hcells).
  destruct (gather_inputs_spec inp cols c_start Hinp)
    as (v & sum_v & Hgather & Hlen & Hv & Hsum).
  destruct (xb_drive_inputs inp cols c_start v d1 Hinp8 Hlen Hv)
    as (d2 & Hdrive & Hsame & Hinput).
  exists d1, v, sum_v, d2. split_and!; auto.
  intros r c Hr Hc. unfold xb_cell. rewrite Hsame. by apply Hcells.
Qed.

(** C2.  After a tile is programmed and driven, the raw read-back of
    each tile row is the true signed MAC of that row plus 128 * sum_v,
    where sum_v is the sum of the eight gathered input bytes (zero
    beyond the last column), and the correction of line 104 returns
    raw - 128 * sum_v, which is that true MAC, exactly: raw is at most
    8 * 255 * 255 and 128 * sum_v at most 128 * 8 * 255, far inside the
    signed 32-bit range.  For a single weight w in [-128, 127] and input
    x in [0, 255], (w + 128) * x - 128 * x computed in 32-bit arithmetic
    is w * x. *)
Theorem offset_correction_exact (W inp : list Z)
    (rows cols r_start c_start : nat) (out : list Z) (d : Crossbar) :
  rows * cols ≤ length W → cols ≤ length inp → rows ≤ length out →
  Forall is_int8 W → Forall is_uint8 inp →
  (∃ d1 v sum_v d2,
     program_tile W rows cols r_start c_start d = Some d1
     ∧ gather_inputs inp cols c_start = Some (v, sum_v)
     ∧ drive_inputs v d1 = Some d2
     ∧ sum_v = sumz (λ c, if decide (c_start + c < cols)
                          then get inp (c_start + c) else 0%Z) 8
     ∧ (0 ≤ 128 * sum_v ≤ 261120)%Z
     ∧ (∃ out', imc_tile_mac W rows cols inp r_start c_start (out, d)
                = Some (out', d2)
          ∧ ∀ r, r < 8 → r_start + r < rows →
              out' !! (r_start + r)
              = Some (add32 (get out (r_start + r))
                        (true_mac (mmio_read (IMC_RESULT r) d2) sum_v)))
     ∧ ∀ r, r < 8 →
         let raw := mmio_read (IMC_RESULT r) d2 in
         let mac := tile_dot W inp rows cols r_start c_start r in
         raw = (mac + 128 * sum_v)%Z
         ∧ (0 ≤ raw ≤ 520200)%Z
         ∧ true_mac raw sum_v = (raw - 128 * sum_v)%Z
         ∧ true_mac raw sum_v = mac
         ∧ (r_start + r < rows →
            mac = sumz (λ c, get W ((r_start + r) * cols + (c_start + c))
                             * padded inp cols c_start c)%Z 8))
  ∧ (∀ w x, is_int8 w → is_uint8 x →
       sub32 (mul32 (w + 128) x) (mul32 128 x) = (w * x)%Z
       ∧ is_int32 ((w + 128) * x) ∧ is_int32 (128 * x)).
Proof.
  intros HW Hinp Hout HW8 Hinp8. split.
  - destruct (xb_tile_setup W inp rows cols r_start c_start d)
      as (d1 & v & sum_v & d2 & Hprog & Hgather & Hdrive & -> & Hv
          & Hcells & Hinput); [done.. |].
    pose proof (sum_v_range inp cols c_start Hinp8) as Hsum.
    exists d1, v, (sumz (padded inp cols c_start) 8), d2.
    do 3 (split; [done |]). split; [reflexivity |]. split; [lia |].
    split.
    { destruct (read_and_correct_spec rows r_start
                  (sumz (padded inp cols c_start) 8) d2 out Hout)
        as (out' & Hread & _ & Hout').
      exists out'. split.
      - unfold imc_tile_mac. rewrite Hprog. bind_step.
        rewrite Hgather. bind_step. rewrite Hdrive. bind_step.
        by rewrite Hread.
      - intros r Hr Hrow. rewrite Hout', decide_True by lia.
        by replace (r_start + r - r_start) with r by lia. }
    intros r Hr. rewrite xb_read_row by done.
    destruct (xb_row_biased W inp rows cols r_start c_start d2 r)
      as [Hraw Hrange]; [done.. |].
    cbv zeta. rewrite true_mac_exact by done. split_and!; [done | lia.. |].
    intros Hrow. unfold tile_dot. apply sumz_ext. intros c _. unfold padded.
    destruct (decide (_ ∧ _)) as [[? ?] |];
      destruct (decide (c_start + c < cols)); lia.
  - intros w x Hw Hx. unfold is_int8 in Hw. unfold is_uint8 in Hx.
    assert (is_int32 ((w + 128) * x)) by (unfold is_int32; nia).
    assert (is_int32 (128 * x)) by (unfold is_int32; lia).
    split_and!; [| done..]. unfold sub32, mul32.
    rewrite (int32_id ((w + 128) * x)), (int32_id (128 * x)) by done.
    rewrite int32_id; [lia |]. unfold is_int32. nia.
Qed.

Lemma offset_correction_exact_witness :
  let W := [1; -2; 3; 4; 5; -6]%Z in
  let inp := [10; 20; 30]%Z in
  2 * 3 ≤ length W ∧ 3 ≤ length inp ∧ 2 ≤ length [7; 7]%Z
  ∧ Forall is_int8 W ∧ Forall is_uint8 inp
  ∧ sub32 (mul32 (-128 + 128) 255) (mul32 128 255) = (-128 * 255)%Z.
Proof.
  intros W inp.
  assert (Forall is_int8 W) as HW by (subst W; in_range).
  assert (Forall is_uint8 inp) as Hinp by (subst inp; in_range).
  split_and!; [simpl; lia.. | done | done |].
  destruct (offset_correction_exact W inp 2 3 0 0 [7; 7]%Z xb_reset)
    as [_ Hid];
    [simpl; lia.. | done | done |].
  apply Hid; [unfold is_int8 | unfold is_uint8]; lia.
Defined.

(** C4.  For every position of the tile, aligned or not: each cell that
    maps to a row at or beyond [rows] or a column at or beyond [cols] is
    programmed to 128, each input position at or beyond [cols] is driven
    with 0, so the corrected contribution (cell - 128) * input of every
    such cell is 0; the corrected read-back of each tile row is the sum
    over the cells inside the matrix alone, it is 0 for a tile row beyond
    [rows], and the accumulator gains exactly that sum in the rows
    inside the matrix and nothing elsewhere. *)
Theorem tile_padding_contributes_zero (W inp : list Z)
    (rows cols r_start c_start : nat) (out : list Z) (d : Crossbar) :
  rows * cols ≤ length W → cols ≤ length inp → rows ≤ length out →
  Forall is_int8 W → Forall is_uint8 inp →
  (∃ d1 v sum_v d2,
     program_tile W rows cols r_start c_start d = Some d1
     ∧ gather_inputs inp cols c_start = Some (v, sum_v)
     ∧ drive_inputs v d1 = Some d2
     ∧ (∀ r c, r < 8 → c < 8 →
          ¬ (r_start + r < rows ∧ c_start + c < cols) →
          xb_cell d2 r c = 128%Z
          ∧ ((xb_cell d2 r c - 128) * xb_input d2 c = 0)%Z)
     ∧ (∀ c, c < 8 → cols ≤ c_start + c →
          v !! c = Some 0%Z ∧ xb_input d2 c = 0%Z)
     ∧ (∀ r, r < 8 →
          true_mac (mmio_read (IMC_RESULT r) d2) sum_v
          = sumz (λ c, if decide (r_start + r < rows ∧ c_start + c < cols)
                       then (get W ((r_start + r) * cols + (c_start + c))
                             * get inp (c_start + c))%Z
                       else 0%Z) 8)
     ∧ (∀ r, r < 8 → rows ≤ r_start + r →
          true_mac (mmio_read (IMC_RESULT r) d2) sum_v = 0%Z))
  ∧ (∃ out' d', imc_tile_mac W rows cols inp r_start c_start (out, d)
                = Some (out', d')
       ∧ ∀ i, out' !! i =
           if decide (r_start ≤ i < r_start + 8 ∧ i < rows)
           then Some (add32 (get out i)
                  (sumz (λ c, if decide (c_start + c < cols)
                              then (get W (i * cols + (c_start + c))
                                    * get inp (c_start + c))%Z
                              else 0%Z) 8))
           else out !! i).
Proof.
  intros HW Hinp Hout HW8 Hinp8. split.
  - destruct (xb_tile_setup W inp rows cols r_start c_start d)
      as (d1 & v & sum_v & d2 & Hprog & Hgather & Hdrive & -> & Hv
          & Hcells & Hinput); [done.. |].
    pose proof (sum_v_range inp cols c_start Hinp8) as Hsum.
    assert (∀ r, r < 8 →
      true_mac (mmio_read (IMC_RESULT r) d2) (sumz (padded inp cols c_start) 8)
      = tile_dot W inp rows cols r_start c_start r) as Hmac.
    { intros r Hr. rewrite xb_read_row by done.
      destruct (xb_row_biased W inp rows cols r_start c_start d2 r)
        as [Hraw Hrange]; [done.. |].
      rewrite true_mac_exact by done. lia. }
    exists d1, v, (sumz (padded inp cols c_start) 8), d2.
    split_and!; [done.. | | | done |].
    + intros r c Hr Hc Hout_of_bounds.
      rewrite Hcells, Hinput by done. unfold conductance, padded.
      rewrite decide_False by done. split; [done |].
      destruct (decide (c_start + c < cols)); lia.
    + intros c Hc Hcol. rewrite Hv, Hinput by done. unfold padded.
      by rewrite decide_False by lia.
    + intros r Hr Hrow. rewrite Hmac by done. unfold tile_dot.
      rewrite (sumz_ext _ (λ _, 0%Z)).
      * reflexivity.
      * intros c _. rewrite decide_False; [done | lia].
  - destruct (xb_tile_mac W inp rows cols r_start c_start out d)
      as (out' & d' & Hrun & _ & Hout'); [done.. |].
    exists out', d'. split; [done |]. intros i. rewrite Hout'.
    destruct (decide (_ ∧ _)) as [[? ?] |]; [| done].
    do 2 f_equal. unfold tile_dot. apply sumz_ext. intros c _.
    replace (r_start + (i - r_start)) with i by lia.
    destruct (decide (_ ∧ _)) as [[? ?] |];
      destruct (decide (c_start + c < cols)); done || lia.
Qed.

Lemma tile_padding_contributes_zero_witness :
  let W := [1; -2; 3; 4; 5; -6]%Z in
  let inp := [10; 20; 30]%Z in
  2 * 3 ≤ length W ∧ 3 ≤ length inp ∧ 2 ≤ length [7; 7]%Z
  ∧ Forall is_int8 W ∧ Forall is_uint8 inp
  ∧ ∃ out' d', imc_tile_mac W 2 3 inp 1 2 ([7; 7]%Z, xb_reset)
               = Some (out', d').
Proof.
  intros W inp.
  assert (Forall is_int8 W) as HW by (subst W; in_range).
  assert (Forall is_uint8 inp) as Hinp by (subst inp; in_range).
  split_and!; [simpl; lia.. | done | done |].
  destruct (tile_padding_contributes_zero W inp 2 3 1 2 [7; 7]%Z xb_reset)
    as (_ & out' & d' & Hrun & _); [simpl; lia.. | done | done |].
  by exists out', d'.
Defined.

(** ** The two strategies *)

Lemma cpu_mv_i8_u8 W inp rows cols out :
  cpu_mv_i8 W inp rows cols out = cpu_mv_u8 W inp rows cols out.
Proof. reflexivity. Qed.

(** An array all of whose entries are known is a table. *)
Lemma tabulate_eq (f : nat → Z) (n : nat) (l : list Z) :
  length l = n → (∀ i, i < n → l !! i = Some (f i)) → l = f <$> seq 0 n.
Proof.
  intros Hlen Hl. apply list_eq. intros i. rewrite list_lookup_fmap.
  destruct (decide (i < n)).
  - rewrite Hl, lookup_seq_lt by done. done.
  - rewrite lookup_seq_ge, lookup_ge_None_2 by lia. done.
Qed.

Lemma fmap_uint8_id (l : list Z) :
  Forall (λ v, 0 ≤ v ≤ 127)%Z l → uint8 <$> l = l.
Proof.
  induction 1 as [|x l Hx _ IH]; [done |]. csimpl.
  rewrite IH, uint8_id; [done |]. unfold is_uint8. lia.
Qed.

Lemma cpu_mv_u8_table W inp rows cols out :
  rows * cols ≤ length W → cols ≤ length inp → length out = rows →
  cpu_mv_u8 W inp rows cols out = Some (mat_vec W inp rows cols).
Proof.
  intros HW Hinp Hout.
  destruct (cpu_mv_u8_spec W inp rows cols out)
    as (o & -> & Hlen & Ho); [lia.. |].
  f_equal. apply tabulate_eq; [lia |]. intros i Hi.
  by rewrite Ho, decide_True.
Qed.

Lemma activate_hidden_table (m : Model) hacc hact :
  H_DIV m ≠ 0%Z → HIDDEN_SIZE m ≤ length hacc →
  HIDDEN_SIZE m ≤ length (b1_int32 m) → length hact = HIDDEN_SIZE m →
  activate_hidden m hacc hact
  = Some ((λ i, clipped (H_DIV m) (get hacc i) (get (b1_int32 m) i))
          <$> seq 0 (HIDDEN_SIZE m)).
Proof.
  intros Hdiv Hacc Hb Hact.
  destruct (activate_hidden_spec m hacc hact)
    as (h & -> & Hlen & Hh); [done || lia.. |].
  f_equal. apply tabulate_eq; [lia |]. intros i Hi.
  by rewrite Hh, decide_True.
Qed.

Lemma add_output_bias_table (m : Model) oacc :
  OUTPUT_SIZE m ≤ length (b2_int32 m) → length oacc = OUTPUT_SIZE m →
  add_output_bias m oacc
  = Some ((λ i, add32 (get oacc i) (get (b2_int32 m) i))
          <$> seq 0 (OUTPUT_SIZE m)).
Proof.
  intros Hb Hlen. unfold add_output_bias.
  destruct (for_range_inv
    (λ n (o : list Z), length o = length oacc ∧ ∀ i, o !! i =
        if decide (i < n)
        then Some (add32 (get oacc i) (get (b2_int32 m) i))
        else oacc !! i)
    0 (OUTPUT_SIZE m)
    (λ i oacc, a ← oacc !! i; b ← b2_int32 m !! i;
               store i (add32 a b) oacc) oacc)
    as (o & -> & Hlen' & Ho); [lia | | |].
  - split; [done |]. intros i. by rewrite decide_False by lia.
  - intros j o [_ Hj] [Hlen' Ho].
    rewrite Ho, decide_False by lia.
    rewrite (get_lookup oacc), (get_lookup (b2_int32 m)) by lia. simpl.
    rewrite store_Some by lia. eexists; split; [done |].
    split; [by rewrite length_insert |]. intros i.
    destruct (decide (i = j)) as [-> |].
    + rewrite list_lookup_insert_eq by lia. by rewrite decide_True by lia.
    + rewrite list_lookup_insert_ne by done. rewrite Ho.
      repeat case_decide; done || lia.
  - f_equal. apply tabulate_eq; [lia |]. intros i Hi.
    by rewrite Ho, decide_True.
Qed.

Lemma argmax_total (a : list Z) (n : nat) :
  n ≤ length a → ∃ best, argmax a n = Some best.
Proof.
  intros Hn. destruct n as [|n]; [by eexists |].
  destruct (argmax_scan a (Datatypes.S n))
    as (best & _ & Hrun & _); [lia | done |].
  by exists best.
Qed.

Lemma clipped_table_range (h_div : Z) (f g : nat → Z) (n : nat) :
  (0 < h_div)%Z →
  Forall (λ v, 0 ≤ v ≤ 127)%Z ((λ i, clipped h_div (f i) (g i)) <$> seq 0 n).
Proof.
  intros Hdiv. apply Forall_fmap, Forall_forall. intros i _. simpl.
  by apply clipped_range.
Qed.

Lemma xb_layer_table W inp rows cols out (d : Crossbar) :
  rows * cols ≤ length W → cols ≤ length inp → length out = rows →
  Forall is_int8 W → Forall is_uint8 inp →
  ∃ d', imc_layer_execution W inp rows cols (out, d)
        = Some (mat_vec W inp rows cols, d').
Proof.
  intros HW Hinp Hout HW8 Hinp8.
  destruct (xb_layer_execution W inp rows cols out d)
    as (o & d' & -> & Hlen & Ho); [done || lia.. |].
  exists d'. do 2 f_equal. apply tabulate_eq; [lia |]. intros i Hi.
  by rewrite Ho, decide_True.
Qed.

Lemma mat_vec_length W inp rows cols : length (mat_vec W inp rows cols) = rows.
Proof. unfold mat_vec. by rewrite length_fmap, length_seq. Qed.

Lemma hidden_act_of_length m img :
  length (hidden_act_of m img) = HIDDEN_SIZE m.
Proof. unfold hidden_act_of. by rewrite length_fmap, length_seq. Qed.

Lemma hidden_act_of_range m img :
  (0 < H_DIV m)%Z → Forall (λ v, 0 ≤ v ≤ 127)%Z (hidden_act_of m img).
Proof. intros. by apply clipped_table_range. Qed.

Lemma output_acc_of_length m img :
  length (output_acc_of m img) = OUTPUT_SIZE m.
Proof. unfold output_acc_of. by rewrite length_fmap, length_seq. Qed.

Section Strategies.
Variable m : Model.
Hypothesis m_ok : wf_model m.

Lemma infer_cpu_table {D : Type} `{Mmio D} img (g : Globals D) :
  wf_image m img → wf_globals m g →
  ∃ cls, argmax (output_acc_of m img) (OUTPUT_SIZE m) = Some cls
    ∧ infer_cpu m img g
      = Some (cls, mkGlobals (hidden_acc_of m img) (hidden_act_of m img)
                     (output_acc_of m img) (imc g)).
Proof.
  destruct m_ok as (Hdiv & Hw1 & Hw1r & Hb1 & Hw2 & Hw2r & Hb2).
  intros [Himg Himgr] (Hacc & Hact & Hout).
  destruct (argmax_total (output_acc_of m img) (OUTPUT_SIZE m)) as [cls Hcls].
  { by rewrite output_acc_of_length. }
  exists cls. split; [done |]. unfold infer_cpu.
  rewrite cpu_mv_u8_table by done. bind_step.
  rewrite activate_hidden_table
    by (rewrite ?mat_vec_length; done || lia). bind_step.
  rewrite cpu_mv_i8_u8, cpu_mv_u8_table
    by (rewrite ?length_fmap, ?length_seq; done). bind_step.
  rewrite add_output_bias_table by (rewrite ?mat_vec_length; done). bind_step.
  fold (hidden_acc_of m img). fold (hidden_act_of m img).
  fold (output_acc_of m img). by rewrite Hcls.
Qed.

Lemma infer_imc_table img (g : Globals Crossbar) :
  wf_image m img → wf_globals m g →
  ∃ cls d, argmax (output_acc_of m img) (OUTPUT_SIZE m) = Some cls
    ∧ infer_imc m img g
      = Some (cls, mkGlobals (hidden_acc_of m img) (hidden_act_of m img)
                     (output_acc_of m img) d).
Proof.
  destruct m_ok as (Hdiv & Hw1 & Hw1r & Hb1 & Hw2 & Hw2r & Hb2).
  intros [Himg Himgr] (Hacc & Hact & Hout).
  destruct (argmax_total (output_acc_of m img) (OUTPUT_SIZE m)) as [cls Hcls].
  { by rewrite output_acc_of_length. }
  pose proof (hidden_act_of_range m img Hdiv) as Hrange.
  unfold infer_imc.
  destruct (xb_layer_table (w1_int8 m) img (HIDDEN_SIZE m) (INPUT_SIZE m)
              (hidden_acc g) (imc g)) as [d1 ->]; [done.. |]. bind_step.
  rewrite activate_hidden_table
    by (rewrite ?mat_vec_length; done || lia). bind_step.
  fold (hidden_acc_of m img). fold (hidden_act_of m img).
  rewrite (fmap_uint8_id (hidden_act_of m img)) by done.
  destruct (xb_layer_table (w2_int8 m) (hidden_act_of m img) (OUTPUT_SIZE m)
              (HIDDEN_SIZE m) (output_acc g) d1) as [d2 ->];
    [done | by rewrite hidden_act_of_length | done | done | |].
  { eapply Forall_impl; [done |]. unfold is_uint8. simpl. lia. }
  bind_step. rewrite add_output_bias_table by (rewrite ?mat_vec_length; done).
  bind_step. fold (output_acc_of m img). rewrite Hcls. bind_step.
  by exists cls, d2.
Qed.
End Strategies.

Lemma wf_globals_table {D : Type} (m : Model) img (d : D) :
  wf_globals m (mkGlobals (hidden_acc_of m img) (hidden_act_of m img)
                  (output_acc_of m img) d).
Proof.
  split_and!;
    [apply mat_vec_length | apply hidden_act_of_length
     | apply output_acc_of_length].
Qed.

Lemma wf_tests_lookup (m : Model) (d : nat) :
  wf_tests m → d < NUM_TEST_IMAGES m →
  ∃ img label, test_images m !! d = Some img
    ∧ test_labels m !! d = Some label ∧ wf_image m img.
Proof.
  intros (Himgs & Hlabels & Hwf) Hd.
  destruct (lookup_lt_is_Some_2 (test_images m) d) as [img Himg]; [lia |].
  destruct (lookup_lt_is_Some_2 (test_labels m) d) as [label Hlabel]; [lia |].
  exists img, label. split_and!; [done.. |]. by eapply Forall_lookup_1.
Qed.

(** One row of the table: both strategies run and agree. *)
Lemma bench_image_row (m : Model) (clk : nat → Z) (d : nat)
    (b : Bench Crossbar) :
  wf_model m → wf_tests m → d < NUM_TEST_IMAGES m →
  wf_globals m (globals b) →
  ∃ b' label cpu_cyc imc_cyc,
    bench_image m clk d b = Some b'
    ∧ wf_globals m (globals b')
    ∧ uart b' = uart b +:+ "  " +:+ fmt_d (Z.of_nat d) +:+ "   |   "
                +:+ fmt_d label +:+ "   | " +:+ pad_right 12 (fmt_u cpu_cyc)
                +:+ " | " +:+ pad_right 12 (fmt_u imc_cyc)
                +:+ " | " +:+ "YES" +:+ nl.
Proof.
  intros Hm Htests Hd Hg.
  destruct (wf_tests_lookup m d Htests Hd) as (img & label & Himg & Hlabel & Hwf).
  destruct (infer_cpu_table m Hm img (globals b) Hwf Hg) as (cls & Hcls & Hcpu).
  destruct (infer_imc_table m Hm img
    (mkGlobals (hidden_acc_of m img) (hidden_act_of m img)
       (output_acc_of m img) (imc (globals b))) Hwf (wf_globals_table m img _))
    as (cls' & d' & Hcls' & Himc).
  assert (cls' = cls) as -> by congruence.
  unfold bench_image. rewrite Hlabel, Himg. bind_step.
  rewrite Hcpu. bind_step. rewrite Himc. bind_step.
  eexists _, label, _, _. split; [done |]. cbn [globals uart].
  split; [apply wf_globals_table |]. by rewrite decide_True.
Qed.

(** C3.  For each image of the test set, whatever the buffers hold
    beforehand, the CPU strategy and the IMC strategy both return, and
    return the same class; the benchmark row of that image reports the
    match.  (Dimensions, value ranges and the sign of the divisor are
    those the types and the header imply.) *)
Theorem strategies_agree_on_test_set (m : Model) (clk : nat → Z) (d : nat)
    (g g' : Globals Crossbar) (b : Bench Crossbar) :
  wf_model m → wf_tests m → d < NUM_TEST_IMAGES m →
  wf_globals m g → wf_globals m g' → wf_globals m (globals b) →
  ∃ img cls gc gi,
    test_images m !! d = Some img
    ∧ infer_cpu m img g = Some (cls, gc)
    ∧ infer_imc m img g' = Some (cls, gi)
    ∧ ∃ b' label cpu_cyc imc_cyc,
        bench_image m clk d b = Some b'
        ∧ uart b' = uart b +:+ "  " +:+ fmt_d (Z.of_nat d) +:+ "   |   "
                    +:+ fmt_d label +:+ "   | "
                    +:+ pad_right 12 (fmt_u cpu_cyc)
                    +:+ " | " +:+ pad_right 12 (fmt_u imc_cyc)
                    +:+ " | " +:+ "YES" +:+ nl.
Proof.
  intros Hm Htests Hd Hg Hg' Hb.
  destruct (wf_tests_lookup m d Htests Hd) as (img & label & Himg & _ & Hwf).
  destruct (infer_cpu_table m Hm img g Hwf Hg) as (cls & Hcls & Hcpu).
  destruct (infer_imc_table m Hm img g' Hwf Hg') as (cls' & d' & Hcls' & Himc).
  assert (cls' = cls) as -> by congruence.
  destruct (bench_image_row m clk d b Hm Htests Hd Hb)
    as (b' & lab & c1 & c2 & Hrow & _ & Huart).
  eexists img, cls, _, _. split_and!; [done.. |].
  by exists b', lab, c1, c2.
Qed.

(** C10.  After the post-processing loop every stored hidden activation
    lies in [0, 127], so reading the signed bytes as unsigned ones
    changes none of them, and the tiled pass over the re-read buffer
    returns the signed dot products that the direct loop over the signed
    buffer returns. *)
Theorem hidden_activations_fit_unsigned (m : Model) (hacc hact0 out : list Z)
    (d : Crossbar) :
  wf_model m →
  HIDDEN_SIZE m ≤ length hacc → length hact0 = HIDDEN_SIZE m →
  OUTPUT_SIZE m ≤ length out →
  ∃ hact, activate_hidden m hacc hact0 = Some hact
    ∧ Forall (λ v, 0 ≤ v ≤ 127)%Z hact
    ∧ uint8 <$> hact = hact
    ∧ ∃ out' d',
        imc_layer_execution (w2_int8 m) (uint8 <$> hact) (OUTPUT_SIZE m)
          (HIDDEN_SIZE m) (out, d) = Some (out', d')
        ∧ cpu_mv_i8 (w2_int8 m) hact (OUTPUT_SIZE m) (HIDDEN_SIZE m) out
          = Some out'
        ∧ ∀ i, i < OUTPUT_SIZE m →
            out' !! i
            = Some (int32 (dot (w2_int8 m) hact (HIDDEN_SIZE m) i
                             (HIDDEN_SIZE m))).
Proof.
  intros (Hdiv & Hw1 & Hw1r & Hb1 & Hw2 & Hw2r & Hb2) Hacc Hact Hout.
  rewrite activate_hidden_table by (done || lia).
  eexists; split; [done |].
  pose proof (clipped_table_range (H_DIV m) (get hacc) (get (b1_int32 m))
                (HIDDEN_SIZE m) Hdiv) as Hrange.
  split; [done |]. rewrite fmap_uint8_id by done. split; [done |].
  match goal with |- context [imc_layer_execution _ ?h _ _ _] =>
    set (hact := h) in * end.
  assert (length hact = HIDDEN_SIZE m) as Hlen
    by (unfold hact; by rewrite length_fmap, length_seq).
  assert (Forall is_uint8 hact) as Hbytes.
  { eapply Forall_impl; [done |]. unfold is_uint8. simpl. lia. }
  destruct (xb_layer_execution (w2_int8 m) hact (OUTPUT_SIZE m)
              (HIDDEN_SIZE m) out d)
    as (o1 & d' & Himc & Hlen1 & Ho1); [done || lia.. |].
  destruct (cpu_mv_u8_spec (w2_int8 m) hact (OUTPUT_SIZE m)
              (HIDDEN_SIZE m) out)
    as (o2 & Hcpu & Hlen2 & Ho2); [done || lia.. |].
  exists o1, d'. split_and!; [done | |].
  - rewrite cpu_mv_i8_u8, Hcpu. f_equal.
    apply list_eq. intros i. by rewrite Ho1, Ho2.
  - intros i Hi. by rewrite Ho1, decide_True.
Qed.

Lemma tiny_model_ok : wf_model tiny.
Proof.
  unfold wf_model. simpl. split_and!; try lia; in_range.
Qed.

Lemma tiny_tests_ok : wf_tests tiny.
Proof.
  unfold wf_tests. simpl. split_and!; [lia | lia |].
  repeat first
    [ apply Forall_nil_2
    | apply Forall_cons_2; [split; [simpl; lia | in_range] |] ].
Qed.

Lemma tiny_globals_ok : wf_globals tiny tiny_globals.
Proof. by unfold wf_globals. Qed.

Lemma strategies_agree_on_test_set_witness :
  wf_model tiny ∧ wf_tests tiny ∧ 1 < NUM_TEST_IMAGES tiny
  ∧ wf_globals tiny tiny_globals
  ∧ ∃ img cls gc gi,
      test_images tiny !! 1 = Some img
      ∧ infer_cpu tiny img tiny_globals = Some (cls, gc)
      ∧ infer_imc tiny img tiny_globals = Some (cls, gi).
Proof.
  assert (1 < NUM_TEST_IMAGES tiny) as Hd by (simpl; lia).
  split_and!; [apply tiny_model_ok | apply tiny_tests_ok | done
               | apply tiny_globals_ok |].
  destruct (strategies_agree_on_test_set tiny (λ _, 0%Z) 1
              tiny_globals tiny_globals
              (mkBench 0 0 0 0 tiny_globals 0 EmptyString)
              tiny_model_ok tiny_tests_ok Hd
              tiny_globals_ok tiny_globals_ok tiny_globals_ok)
    as (img & cls & gc & gi & Himg & Hcpu & Himc & _).
  by exists img, cls, gc, gi.
Defined.

Lemma hidden_activations_fit_unsigned_witness :
  wf_model tiny
  ∧ HIDDEN_SIZE tiny ≤ length [60; -140]%Z
  ∧ length [0; 0]%Z = HIDDEN_SIZE tiny
  ∧ OUTPUT_SIZE tiny ≤ length [0; 0]%Z
  ∧ ∃ hact, activate_hidden tiny [60; -140]%Z [0; 0]%Z = Some hact
      ∧ Forall (λ v, 0 ≤ v ≤ 127)%Z hact.
Proof.
  assert (HIDDEN_SIZE tiny ≤ 2) as H1 by (simpl; lia).
  assert (2 = HIDDEN_SIZE tiny) as H2 by done.
  split_and!; [apply tiny_model_ok | done.. |].
  destruct (hidden_activations_fit_unsigned tiny [60; -140]%Z [0; 0]%Z
              [0; 0]%Z xb_reset tiny_model_ok H1 H2 H1)
    as (hact & Hrun & Hrange & _).
  by exists hact.
Defined.

(** ** The observer: phase durations *)

Lemma calc_diff_duration (mk : gmap string Z) (name phase : string) :
  (Testbench.calc_diff mk name ("START_" +:+ phase) ("END_" +:+ phase)).2
  = duration mk phase.
Proof.
  unfold Testbench.calc_diff, duration.
  by destruct (mk !! ("START_" +:+ phase)) as [s|],
             (mk !! ("END_" +:+ phase)) as [e|].
Qed.

(** C6.  For each of the six phases the observer reports
    END[name] - START[name], computed on unsigned 64-bit cycle counts,
    exactly when both markers were recorded, which is the plain
    difference whenever the start is not after the end; when either
    marker is missing it prints nothing for the phase and reports 0.
    A stream with "@@START_LAYER1" completed at cycle 100 and
    "@@END_LAYER1" at cycle 340 gives 240 for LAYER1; without the end
    marker LAYER1 is reported as 0. *)
Theorem observer_phase_durations (mk : gmap string Z) (name phase : string) :
  (∀ s e, mk !! ("START_" +:+ phase) = Some s →
          mk !! ("END_" +:+ phase) = Some e →
     (Testbench.calc_diff mk name ("START_" +:+ phase) ("END_" +:+ phase)).2
     = uint64 (e - s)
     ∧ ((0 ≤ s ≤ e)%Z → (e < 2 ^ 64)%Z →
        (Testbench.calc_diff mk name ("START_" +:+ phase)
           ("END_" +:+ phase)).2 = (e - s)%Z))
  ∧ (mk !! ("START_" +:+ phase) = None ∨ mk !! ("END_" +:+ phase) = None →
     Testbench.calc_diff mk name ("START_" +:+ phase) ("END_" +:+ phase)
     = (EmptyString, 0%Z))
  ∧ Testbench.breakdown mk
    = Testbench.mkBreakdown (duration mk "PREPARE") (duration mk "LAYER1")
        (duration mk "RELU") (duration mk "LAYER2") (duration mk "ARGMAX")
        (duration mk "TOTAL")
  ∧ (let o := Testbench.observe
                (Testbench.line_ending_at 100 ("@@START_LAYER1" +:+ nl)
                 ++ Testbench.line_ending_at 239 ("@@END_LAYER1" +:+ nl)) in
     Testbench.markers o !! "START_LAYER1" = Some 100%Z
     ∧ Testbench.markers o !! "END_LAYER1" = Some 340%Z
     ∧ Testbench.layer1 (Testbench.breakdown (Testbench.markers o)) = 240%Z)
  ∧ (let o := Testbench.observe
                (Testbench.line_ending_at 100 ("@@START_LAYER1" +:+ nl)
                 ++ replicate 240 Testbench.idle) in
     Testbench.markers o !! "START_LAYER1" = Some 100%Z
     ∧ Testbench.markers o !! "END_LAYER1" = None
     ∧ Testbench.calc_diff (Testbench.markers o) "Layer 1 (784->32):"
         "START_LAYER1" "END_LAYER1" = (EmptyString, 0%Z)
     ∧ Testbench.layer1 (Testbench.breakdown (Testbench.markers o)) = 0%Z).
Proof.
  split_and!.
  - intros s e Hs He. unfold Testbench.calc_diff. rewrite Hs, He. simpl.
    split; [done |]. intros Hle Hlt. unfold uint64.
    apply Z.mod_small. lia.
  - unfold Testbench.calc_diff. intros [-> | ->]; [done |].
    by destruct (mk !! ("START_" +:+ phase)).
  - unfold Testbench.breakdown. f_equal;
      [ apply (calc_diff_duration mk _ "PREPARE")
      | apply (calc_diff_duration mk _ "LAYER1")
      | apply (calc_diff_duration mk _ "RELU")
      | apply (calc_diff_duration mk _ "LAYER2")
      | apply (calc_diff_duration mk _ "ARGMAX")
      | apply (calc_diff_duration mk _ "TOTAL") ].
  - by vm_compute.
  - by vm_compute.
Qed.

(** ** What the firmware sends to the UART *)

Lemma has_char_app c s1 s2 :
  has_char c (s1 +:+ s2) = has_char c s1 || has_char c s2.
Proof.
  induction s1 as [|a s1 IH]; simpl; [done |].
  by rewrite IH, orb_assoc.
Qed.

Lemma spaces_no_at n : has_char "@" (spaces n) = false.
Proof. induction n as [|n IH]; simpl; done. Qed.

Lemma digits_no_at d : has_char "@" (NilEmpty.string_of_uint d) = false.
Proof. induction d; simpl; done. Qed.

Lemma fmt_u_no_at z : has_char "@" (fmt_u z) = false.
Proof.
  unfold fmt_u, NilZero.string_of_uint.
  destruct (N.to_uint _); try done; apply (digits_no_at (_ _)).
Qed.

Lemma fmt_d_no_at z : has_char "@" (fmt_d z) = false.
Proof.
  unfold fmt_d, NilZero.string_of_int, NilZero.string_of_uint.
  destruct (Z.to_int _) as [d | d]; destruct d;
    try done; simpl; apply (digits_no_at (_ _)) || apply digits_no_at.
Qed.

Lemma pad_right_no_at w s :
  has_char "@" s = false → has_char "@" (pad_right w s) = false.
Proof.
  intros Hs. unfold pad_right. by rewrite has_char_app, Hs, spaces_no_at.
Qed.

(** Splitting the check over the pieces of a printed line. *)
Ltac no_at :=
  repeat rewrite has_char_app;
  repeat rewrite fmt_d_no_at;
  repeat rewrite (pad_right_no_at _ _ (fmt_u_no_at _));
  repeat rewrite fmt_u_no_at;
  try reflexivity.

(** A property of the loop state that every iteration preserves holds
    when the loop returns. *)
Lemma for_loop_preserves {S : Type} (P : S → Prop) step bound body :
  (∀ j t t', body j t = Some t' → P t → P t') →
  ∀ fuel i s s', for_loop fuel step bound body i s = Some s' → P s → P s'.
Proof.
  intros Hbody fuel. induction fuel as [|fuel IH]; intros i s s'; simpl.
  - case_decide; [| done]. by intros [= <-].
  - case_decide; [by intros [= <-] |].
    destruct (body i s) as [t|] eqn:Ht; [| done]. simpl.
    intros Hrun HP. eapply IH; [done |]. by eapply Hbody.
Qed.

Lemma bench_image_no_at {D : Type} `{Mmio D} m clk d (b b' : Bench D) :
  bench_image m clk d b = Some b' →
  has_char "@" (uart b) = false → has_char "@" (uart b') = false.
Proof.
  unfold bench_image. intros Hrun Hb.
  destruct (test_labels m !! d) as [label|]; [| done].
  destruct (test_images m !! d) as [img|]; [| done].
  cbn [mbind option_bind] in Hrun.
  destruct (infer_cpu m img (globals b)) as [[pred_cpu g1]|]; [| done].
  cbn [mbind option_bind] in Hrun.
  destruct (infer_imc m img g1) as [[pred_imc g2]|]; [| done].
  cbn [mbind option_bind] in Hrun. injection Hrun as <-. cbn [uart].
  rewrite has_char_app, Hb. destruct (decide (pred_cpu = pred_imc)); no_at.
Qed.

Lemma summary_no_at {D : Type} (b : Bench D) :
  has_char "@" (summary b) = false.
Proof. unfold summary. no_at. Qed.

Lemma main_no_at {D : Type} `{Mmio D} m clk (g : Globals D) out :
  main m clk g = Some out → has_char "@" out = false.
Proof.
  unfold main, for_range. intros Hrun.
  destruct (for_loop _ _ _ _ _ _) as [b|] eqn:Hloop; [| done].
  cbn [mbind option_bind] in Hrun. injection Hrun as <-.
  rewrite has_char_app, summary_no_at.
  rewrite (for_loop_preserves (λ b, has_char "@" (uart b) = false)
             _ _ _ (bench_image_no_at m clk) _ _ _ _ Hloop); done.
Qed.

Lemma main_total (m : Model) (clk : nat → Z) (g : Globals Crossbar) :
  wf_model m → wf_tests m → wf_globals m g →
  ∃ out, main m clk g = Some out.
Proof.
  intros Hm Htests Hg. unfold main.
  destruct (for_range_inv (λ _ (b : Bench Crossbar), wf_globals m (globals b))
    0 (NUM_TEST_IMAGES m) (bench_image m clk)
    (mkBench 0 0 0 0 g 0 (banner)))
    as (b & -> & _); [lia | done | | by eexists].
  intros d b [_ Hd] Hb.
  destruct (bench_image_row m clk d b Hm Htests Hd Hb)
    as (b' & _ & _ & _ & -> & Hb' & _).
  by exists b'.
Qed.

(** ** The observer on a stream without markers *)

Lemma index_without_first_char c pat s :
  has_char c s = false → String.index 0 (String c pat) s = None.
Proof.
  induction s as [|a s IH]; simpl; [done |].
  intros [Ha Hs]%orb_false_elim. apply bool_decide_eq_false in Ha.
  destruct (ascii_dec c a) as [-> |]; [done |]. by rewrite IH.
Qed.

Lemma record_marker_no_at cycle line mk :
  has_char "@" line = false → Testbench.record_marker cycle line mk = mk.
Proof.
  intros Hline. unfold Testbench.record_marker.
  by rewrite !(index_without_first_char "@") by done.
Qed.

Lemma observe_cycle_no_at cycle x o :
  (Testbench.uart_write x = true → Testbench.sample_char x ≠ "@"%char) →
  has_char "@" (Testbench.current_line o) = false →
  Testbench.markers (Testbench.observe_cycle cycle x o) = Testbench.markers o
  ∧ has_char "@" (Testbench.current_line (Testbench.observe_cycle cycle x o))
    = false.
Proof.
  intros Hchar Hline. unfold Testbench.observe_cycle.
  destruct (Testbench.uart_write x) eqn:Hw; simpl; [| done].
  destruct (Testbench.last_uart_write o); simpl; [done |].
  assert (has_char "@"
            (Testbench.current_line o
             +:+ String (Testbench.sample_char x) EmptyString) = false)
    as Hline'.
  { rewrite has_char_app, Hline. simpl.
    rewrite bool_decide_eq_false_2; [done |]. by apply Hchar. }
  case_decide; simpl; [| done].
  by rewrite record_marker_no_at.
Qed.

Lemma observe_from_no_at trace :
  (∀ x, x ∈ trace → Testbench.uart_write x = true →
        Testbench.sample_char x ≠ "@"%char) →
  ∀ cycle o, has_char "@" (Testbench.current_line o) = false →
    Testbench.markers (Testbench.observe_from cycle trace o)
    = Testbench.markers o.
Proof.
  induction trace as [|x trace IH]; intros Hchars cycle o Hline; [done |].
  simpl. case_decide; [| done].
  destruct (observe_cycle_no_at cycle x o) as [Hmk Hline'];
    [apply Hchars; by left | done |].
  rewrite IH; [done | | done].
  intros y Hy. apply Hchars. by right.
Qed.

(** C5, as the program has it.  The firmware prints the banner, one
    table row per test image and the summary, and times both
    strategies itself from the cycle counter; nothing it prints holds
    the character '@', so no line of it holds "@@START_" or "@@END_",
    and an observer whose UART characters all come from that output
    records no marker and reports every phase as 0. *)
Theorem firmware_output_has_no_markers {D : Type} `{Mmio D} (m : Model)
    (clk : nat → Z) (g : Globals D) (out : string)
    (trace : list Testbench.Sample) :
  main m clk g = Some out →
  (∀ x, x ∈ trace → Testbench.uart_write x = true →
        has_char (Testbench.sample_char x) out = true) →
  has_char "@" out = false
  ∧ String.index 0 "@@START_" out = None
  ∧ String.index 0 "@@END_" out = None
  ∧ Testbench.markers (Testbench.observe trace) = ∅
  ∧ Testbench.breakdown (Testbench.markers (Testbench.observe trace))
    = Testbench.mkBreakdown 0 0 0 0 0 0.
Proof.
  intros Hmain Htrace. pose proof (main_no_at m clk g out Hmain) as Hout.
  assert (Testbench.markers (Testbench.observe trace) = ∅) as Hmk.
  { unfold Testbench.observe. rewrite observe_from_no_at; [done | | done].
    intros x Hx Hw Hat. specialize (Htrace x Hx Hw).
    rewrite Hat in Htrace. congruence. }
  split_and!; [done | by apply index_without_first_char
               | by apply index_without_first_char | done |].
  by rewrite Hmk.
Qed.

Lemma firmware_output_has_no_markers_witness :
  ∃ out, main tiny (λ k, Z.of_nat k * 1000)%Z tiny_globals = Some out
    ∧ (∀ x, x ∈ Testbench.spell out → Testbench.uart_write x = true →
            has_char (Testbench.sample_char x) out = true)
    ∧ Testbench.markers (Testbench.observe (Testbench.spell out)) = ∅.
Proof.
  destruct (main_total tiny (λ k, Z.of_nat k * 1000)%Z tiny_globals
              tiny_model_ok tiny_tests_ok tiny_globals_ok) as [out Hout].
  exists out.
  assert (∀ x, x ∈ Testbench.spell out → Testbench.uart_write x = true →
            has_char (Testbench.sample_char x) out = true) as Htrace.
  { clear Hout. induction out as [|a out IH]; simpl; [by intros x ?%elem_of_nil |].
    intros x [-> | [-> | Hx]%elem_of_cons]%elem_of_cons Hw.
    - done.
    - apply orb_true_intro. left. apply bool_decide_eq_true.
      unfold Testbench.sample_char, Testbench.put. simpl.
      change 255%Z with (Z.ones 8). rewrite Z.land_ones by lia.
      pose proof (N_ascii_bounded a).
      rewrite Z.mod_small by lia. by rewrite N2Z.id, ascii_N_embedding.
    - apply orb_true_intro. right. by apply IH. }
  split_and!; [done | done |].
  by destruct (firmware_output_has_no_markers tiny (λ k, Z.of_nat k * 1000)%Z
                 tiny_globals out (Testbench.spell out) Hout Htrace)
       as (_ & _ & _ & Hmk & _).
Defined.

(** The benchmark of the small network: its output has no line with a
    start or an end tag. *)
Lemma firmware_run_without_markers :
  ∃ out, main tiny (λ k, Z.of_nat k * 1000)%Z tiny_globals = Some out
    ∧ ¬ (∃ pos, String.index 0 "@@START_" out = Some pos)
    ∧ ¬ (∃ pos, String.index 0 "@@END_" out = Some pos).
Proof.
  eexists. split; [by vm_compute |].
  split; intros [pos Hpos]; vm_compute in Hpos; discriminate.
Qed.

(** ** sw/print.c: strings and decimal numbers on the UART *)

Lemma while_loop_done {S : Type} fuel (cond : S → option bool) body s :
  cond s = Some false → while_loop fuel cond body s = Some s.
Proof. intros Hc. destruct fuel; simpl; by rewrite Hc. Qed.

Lemma while_loop_step {S : Type} fuel (cond : S → option bool) body s s' :
  cond s = Some true → body s = Some s' →
  while_loop (Datatypes.S fuel) cond body s = while_loop fuel cond body s'.
Proof. intros Hc Hb. simpl. rewrite Hc. simpl. by rewrite Hb. Qed.

Lemma print_str_loop (mem : list Z) (str rest : list Z) :
  Forall (λ c, c ≠ 0%Z) str →
  ∀ fuel pre tx, mem = pre ++ str ++ 0%Z :: rest → length str ≤ fuel →
    while_loop fuel
      (λ '(s, _), c ← mem !! s; Some (negb (bool_decide (c = 0%Z))))
      (λ '(s, tx), c ← mem !! s; Some (Datatypes.S s, uart_putchar c tx))
      (length pre, tx)
    = Some (length pre + length str, tx ++ (uint32 <$> str)).
Proof.
  induction 1 as [|a str Ha _ IH]; intros fuel pre tx Hmem Hfuel.
  - rewrite while_loop_done.
    + simpl. by rewrite Nat.add_0_r, app_nil_r.
    + rewrite Hmem. simpl. by rewrite list_lookup_middle by done.
  - destruct fuel as [|fuel]; [simpl in Hfuel; lia |].
    assert (mem !! length pre = Some a) as Hlook.
    { rewrite Hmem. simpl. by rewrite list_lookup_middle by done. }
    erewrite while_loop_step.
    2:{ rewrite Hlook. simpl. by rewrite bool_decide_eq_false_2. }
    2:{ rewrite Hlook. simpl. done. }
    specialize (IH fuel (pre ++ [a]) (uart_putchar a tx)).
    rewrite length_app in IH. simpl in IH.
    replace (length pre + 1) with (Datatypes.S (length pre)) in IH by lia.
    rewrite IH.
    + unfold uart_putchar. rewrite fmap_cons. simpl.
      by rewrite <- app_assoc, Nat.add_succ_r.
    + rewrite Hmem. by rewrite <- app_assoc.
    + simpl in Hfuel. lia.
Qed.

Lemma print_str_runs_off (mem : list Z) :
  ∀ fuel s tx, Forall (λ c, c ≠ 0%Z) (drop s mem) →
    while_loop fuel
      (λ '(s, _), c ← mem !! s; Some (negb (bool_decide (c = 0%Z))))
      (λ '(s, tx), c ← mem !! s; Some (Datatypes.S s, uart_putchar c tx))
      (s, tx)
    = None.
Proof.
  induction fuel as [|fuel IH]; intros s tx Hall;
    destruct (mem !! s) as [c|] eqn:Hc; simpl; rewrite Hc; simpl; try done.
  - assert (c ≠ 0%Z) as Hnz.
    { eapply (Forall_lookup_1 _ _ 0 c Hall).
      by rewrite lookup_drop, Nat.add_0_r. }
    by rewrite bool_decide_eq_false_2.
  - assert (c ≠ 0%Z) as Hnz.
    { eapply (Forall_lookup_1 _ _ 0 c Hall).
      by rewrite lookup_drop, Nat.add_0_r. }
    rewrite bool_decide_eq_false_2 by done. simpl.
    apply IH. rewrite <- (Nat.add_1_r s), <- drop_drop.
    by apply Forall_drop.
Qed.

(** [print_str] sends the bytes before the first NUL, in order, and
    nothing after it; on memory without a NUL from the start offset on
    it reads past the end of the array. *)
Theorem print_str_until_nul (pre str rest : list Z) (tx : list Z) :
  Forall (λ c, c ≠ 0%Z) str →
  print_str (pre ++ str ++ 0%Z :: rest) (length pre) tx
  = Some (tx ++ (uint32 <$> str))
  ∧ print_str (pre ++ str) (length pre) tx = None.
Proof.
  intros Hstr. split.
  - unfold print_str.
    rewrite (print_str_loop _ str rest Hstr _ pre tx eq_refl).
    + done.
    + rewrite !length_app. simpl. lia.
  - unfold print_str. rewrite print_str_runs_off; [done |].
    by rewrite drop_app_length.
Qed.

Lemma print_str_until_nul_witness :
  Forall (λ c, c ≠ 0%Z) [72; 105]%Z
  ∧ print_str ([1; 2] ++ [72; 105] ++ 0 :: [33])%Z 2 [] = Some [72; 105]%Z.
Proof.
  assert (Forall (λ c, c ≠ 0%Z) [72; 105]%Z) as Hstr
    by (repeat constructor; lia).
  split; [done |].
  apply (print_str_until_nul [1; 2]%Z [72; 105]%Z [33]%Z [] Hstr).
Defined.

(** *** Decimal digits *)
















(** ** sw/syscalls.c: [_write] and [_sbrk] *)

Lemma write_loop (ptr : list Z) (n : nat) (tx : list Z) :
  n ≤ length ptr →
  for_range 0 1 n (λ i tx, c ← ptr !! i; Some (tx ++ [uint32 c])) tx
  = Some (tx ++ (uint32 <$> take n ptr)).
Proof.
  intros Hn.
  destruct (for_range_inv
    (λ i (t : list Z), t = tx ++ (uint32 <$> take i ptr)) 0 n
    (λ i tx, c ← ptr !! i; Some (tx ++ [uint32 c])) tx)
    as (t & -> & ->); [lia | by rewrite take_0, app_nil_r | | done].
  intros i t [_ Hi] ->.
  destruct (lookup_lt_is_Some_2 ptr i) as [c Hc]; [lia |].
  rewrite Hc. simpl. eexists; split; [done |].
  rewrite (take_S_r _ _ c) by done.
  by rewrite fmap_app, <- app_assoc.
Qed.

(** [_write] sends the first [len] bytes of the buffer to the UART, in
    order, and returns [len], whatever the file descriptor is; a
    count that is zero or negative sends nothing.  Two writes in a row
    send what one write of the joined buffers sends. *)
Theorem write_sends_len_bytes (file : Z) (ptr : list Z) (len : Z)
    (tx : list Z) :
  (len ≤ Z.of_nat (length ptr))%Z →
  _write file ptr len tx
  = Some (len, tx ++ (uint32 <$> take (Z.to_nat len) ptr))
  ∧ ((len ≤ 0)%Z → _write file ptr len tx = Some (len, tx))
  ∧ (∀ file' ptr' tx1,
       _write file ptr (Z.of_nat (length ptr)) tx = Some (Z.of_nat (length ptr), tx1) →
       ∃ tx2,
         _write file' ptr' (Z.of_nat (length ptr')) tx1
         = Some (Z.of_nat (length ptr'), tx2)
         ∧ _write file (ptr ++ ptr') (Z.of_nat (length (ptr ++ ptr'))) tx
           = Some (Z.of_nat (length (ptr ++ ptr')), tx2)).
Proof.
  intros Hlen.
  assert (∀ f p l t, (l ≤ Z.of_nat (length p))%Z →
            _write f p l t = Some (l, t ++ (uint32 <$> take (Z.to_nat l) p)))
    as Hwrite.
  { intros f p l t Hl. unfold _write. rewrite write_loop by lia. done. }
  split_and!.
  - by apply Hwrite.
  - intros Hneg. rewrite Hwrite by done.
    replace (Z.to_nat len) with 0 by lia. by rewrite take_0, app_nil_r.
  - intros file' ptr' tx1 Hfirst. rewrite Hwrite in Hfirst by lia.
    injection Hfirst as <-. rewrite !Hwrite by lia.
    eexists; split; [done |]. rewrite !Nat2Z.id, !firstn_all.
    by rewrite fmap_app, app_assoc.
Qed.

Lemma write_sends_len_bytes_witness :
  (3 ≤ Z.of_nat (length [72; 105; 0; 33]%Z))%Z
  ∧ _write 1 [72; 105; 0; 33]%Z 3 [] = Some (3%Z, [72; 105; 0]%Z).
Proof.
  assert (3 ≤ Z.of_nat (length [72; 105; 0; 33]%Z))%Z as Hlen by (simpl; lia).
  split; [done |].
  by destruct (write_sends_len_bytes 1 [72; 105; 0; 33]%Z 3 [] Hlen)
       as [-> _].
Defined.

Lemma sum_incrs_cons incr incrs k :
  sum_incrs (incr :: incrs) (Datatypes.S k) = (incr + sum_incrs incrs k)%Z.
Proof. reflexivity. Qed.

Lemma sbrk_calls_from (end_addr : Z) (incrs : list Z) :
  ∀ h, h ≠ 0%Z →
    (∀ k, 1 ≤ k ≤ length incrs →
          (0 < h + sum_incrs incrs k < 2 ^ 32)%Z) →
    sbrk_calls end_addr incrs h
    = ((λ k, h + sum_incrs incrs k)%Z <$> seq 0 (length incrs),
       (h + sum_incrs incrs (length incrs))%Z).
Proof.
  induction incrs as [|incr incrs IH]; intros h Hh Hbrk.
  - simpl. unfold sum_incrs. simpl. by rewrite Z.add_0_r.
  - simpl sbrk_calls. unfold _sbrk. rewrite decide_False by done.
    pose proof (Hbrk 1 ltac:(simpl; lia)) as H1.
    rewrite sum_incrs_cons in H1. unfold sum_incrs in H1.
    rewrite take_0 in H1. simpl in H1. rewrite Z.add_0_r in H1.
    rewrite uint32_id by lia.
    rewrite IH; [| lia |].
    + simpl length. rewrite sum_incrs_cons. f_equal; [| lia].
      simpl seq. rewrite fmap_cons. f_equal.
      * unfold sum_incrs. simpl. lia.
      * rewrite <- fmap_S_seq, <- list_fmap_compose.
        apply list_fmap_ext. intros _ k _. simpl.
        rewrite sum_incrs_cons. lia.
    + intros k Hk. specialize (Hbrk (Datatypes.S k) ltac:(simpl; lia)).
      rewrite sum_incrs_cons in Hbrk. lia.
Qed.

(** Successive [_sbrk] calls hand out adjacent blocks starting at
    [_end]: as long as the break stays inside the 32-bit address
    space and away from address 0, the k-th call returns [_end] plus
    the sum of the earlier increments.  A break that lands on address
    0 reads as "not initialised": the next call starts again at
    [_end]. *)
Theorem sbrk_blocks_are_adjacent (end_addr : Z) (incrs : list Z) :
  (0 < end_addr < 2 ^ 32)%Z →
  (∀ k, 1 ≤ k ≤ length incrs →
        (0 < end_addr + sum_incrs incrs k < 2 ^ 32)%Z) →
  (sbrk_calls end_addr incrs 0).1
  = (λ k, end_addr + sum_incrs incrs k)%Z <$> seq 0 (length incrs)
  ∧ (incrs ≠ [] →
     (sbrk_calls end_addr incrs 0).2
     = (end_addr + sum_incrs incrs (length incrs))%Z)
  ∧ (∀ incr h incr',
       (_sbrk end_addr incr h).2 = 0%Z →
       (_sbrk end_addr incr' (_sbrk end_addr incr h).2).1 = end_addr).
Proof.
  intros Hend Hbrk.
  assert (incrs ≠ [] → sbrk_calls end_addr incrs 0
                       = sbrk_calls end_addr incrs end_addr) as Hinit.
  { destruct incrs as [|incr incrs]; [done |]. intros _.
    simpl. unfold _sbrk. destruct (decide (end_addr = 0%Z)); [lia |].
    by rewrite ?decide_True by done. }
  pose proof (sbrk_calls_from end_addr incrs end_addr ltac:(lia) Hbrk) as Hfrom.
  split_and!.
  - destruct incrs as [|incr incrs]; [done |].
    by rewrite Hinit, Hfrom.
  - intros Hne. by rewrite Hinit, Hfrom.
  - intros incr h incr' ->. by unfold _sbrk.
Qed.

Lemma sbrk_blocks_are_adjacent_witness :
  (0 < 4096 < 2 ^ 32)%Z
  ∧ (∀ k, 1 ≤ k ≤ length [16; 32; -8]%Z →
          (0 < 4096 + sum_incrs [16; 32; -8]%Z k < 2 ^ 32)%Z)
  ∧ (sbrk_calls 4096 [16; 32; -8]%Z 0).1 = [4096; 4112; 4144]%Z.
Proof.
  assert (0 < 4096 < 2 ^ 32)%Z as Hend by lia.
  assert (∀ k, 1 ≤ k ≤ length [16; 32; -8]%Z →
            (0 < 4096 + sum_incrs [16; 32; -8]%Z k < 2 ^ 32)%Z) as Hbrk.
  { intros k Hk. simpl in Hk.
    destruct k as [|[|[|[|k]]]]; try lia; vm_compute; done. }
  split_and!; [done.. |].
  by destruct (sbrk_blocks_are_adjacent 4096 [16; 32; -8]%Z Hend Hbrk)
       as [-> _].
Defined.

(** ** sw/hello.c: exactness and stale state *)

Lemma dot_range W inp cols r n :
  Forall is_int8 W → Forall is_uint8 inp →
  (Z.of_nat n * -32640 ≤ dot W inp cols r n ≤ Z.of_nat n * 32385)%Z.
Proof.
  intros HW Hinp. unfold dot. apply sumz_bounds. intros c _.
  apply byte_product_range; [by apply get_int8 | by apply get_uint8].
Qed.

(** As long as a row has at most 65793 columns, neither kernel wraps:
    both leave in each of the first [rows] accumulator entries the
    dot product over the integers, and the direct loop leaves the
    entries from [rows] on as they were. *)
Theorem dot_products_are_exact (W inp : list Z) (rows cols : nat)
    (out : list Z) (d : Crossbar) :
  rows * cols ≤ length W → cols ≤ length inp → rows ≤ length out →
  Forall is_int8 W → Forall is_uint8 inp → (Z.of_nat cols ≤ 65793)%Z →
  ∃ out_cpu out_imc d',
    cpu_mv_u8 W inp rows cols out = Some out_cpu
    ∧ imc_layer_execution W inp rows cols (out, d) = Some (out_imc, d')
    ∧ (∀ i, i < rows →
         out_cpu !! i = Some (dot W inp cols i cols)
         ∧ out_imc !! i = Some (dot W inp cols i cols))
    ∧ (∀ i, rows ≤ i → out_cpu !! i = out !! i).
Proof.
  intros HW Hinp Hout HW8 Hinp8 Hcols.
  destruct (cpu_mv_u8_spec W inp rows cols out)
    as (o1 & Hcpu & _ & Ho1); [done.. |].
  destruct (xb_layer_execution W inp rows cols out d)
    as (o2 & d' & Himc & _ & Ho2); [done.. |].
  exists o1, o2, d'. split_and!; [done.. | |].
  - intros i Hi. rewrite Ho1, Ho2, !decide_True by done.
    pose proof (dot_range W inp cols i cols HW8 Hinp8).
    rewrite int32_id; [done |]. unfold is_int32. lia.
  - intros i Hi. by rewrite Ho1, decide_False by lia.
Qed.

Lemma dot_products_are_exact_witness :
  let W := [1; -2; 3; 4; 5; -6]%Z in
  let inp := [10; 20; 30]%Z in
  2 * 3 ≤ length W ∧ 3 ≤ length inp ∧ 2 ≤ length [7; 7; 7]%Z
  ∧ Forall is_int8 W ∧ Forall is_uint8 inp ∧ (Z.of_nat 3 ≤ 65793)%Z
  ∧ ∃ out_cpu, cpu_mv_u8 W inp 2 3 [7; 7; 7]%Z = Some out_cpu.
Proof.
  intros W inp.
  assert (Forall is_int8 W) as HW by (subst W; in_range).
  assert (Forall is_uint8 inp) as Hinp by (subst inp; in_range).
  assert (Z.of_nat 3 ≤ 65793)%Z as Hcols by lia.
  split_and!; [simpl; lia.. | done | done | done |].
  destruct (dot_products_are_exact W inp 2 3 [7; 7; 7]%Z xb_reset)
    as (o & _ & _ & Hcpu & _); [simpl; lia.. | done | done | done |].
  by exists o.
Defined.

(** No state left behind by earlier work shows in the result: a tile
    operation gives the same accumulator whatever the crossbar held
    before, and a layer execution gives the same first [rows] entries
    whatever the crossbar and the accumulator held before. *)
Theorem no_stale_state (W inp : list Z) (rows cols r_start c_start : nat)
    (out1 out2 : list Z) (d1 d2 : Crossbar) :
  rows * cols ≤ length W → cols ≤ length inp →
  rows ≤ length out1 → rows ≤ length out2 →
  Forall is_int8 W → Forall is_uint8 inp →
  (∃ o e1 e2,
     imc_tile_mac W rows cols inp r_start c_start (out1, d1) = Some (o, e1)
     ∧ imc_tile_mac W rows cols inp r_start c_start (out1, d2) = Some (o, e2))
  ∧ (∃ o1 o2 e1 e2,
       imc_layer_execution W inp rows cols (out1, d1) = Some (o1, e1)
       ∧ imc_layer_execution W inp rows cols (out2, d2) = Some (o2, e2)
       ∧ take rows o1 = take rows o2).
Proof.
  intros HW Hinp Hout1 Hout2 HW8 Hinp8. split.
  - destruct (xb_tile_mac W inp rows cols r_start c_start out1 d1)
      as (o & e1 & Hrun1 & Hlen1 & Ho1); [done.. |].
    destruct (xb_tile_mac W inp rows cols r_start c_start out1 d2)
      as (o' & e2 & Hrun2 & Hlen2 & Ho2); [done.. |].
    exists o, e1, e2. split; [done |]. rewrite Hrun2. do 2 f_equal.
    apply list_eq. intros i. by rewrite Ho1, Ho2.
  - destruct (xb_layer_execution W inp rows cols out1 d1)
      as (o1 & e1 & Hrun1 & Hlen1 & Ho1); [done.. |].
    destruct (xb_layer_execution W inp rows cols out2 d2)
      as (o2 & e2 & Hrun2 & Hlen2 & Ho2); [done.. |].
    exists o1, o2, e1, e2. split_and!; [done.. |].
    apply list_eq. intros i. rewrite !lookup_take.
    case_decide; [| done]. by rewrite Ho1, Ho2, !decide_True.
Qed.

Lemma no_stale_state_witness :
  let W := [1; -2; 3; 4; 5; -6]%Z in
  let inp := [10; 20; 30]%Z in
  2 * 3 ≤ length W ∧ 3 ≤ length inp
  ∧ 2 ≤ length [7; 7]%Z ∧ 2 ≤ length [0; 9; 9]%Z
  ∧ Forall is_int8 W ∧ Forall is_uint8 inp
  ∧ ∃ o1 o2 e1 e2,
      imc_layer_execution W inp 2 3 ([7; 7]%Z, xb_reset) = Some (o1, e1)
      ∧ imc_layer_execution W inp 2 3 ([0; 9; 9]%Z, e1) = Some (o2, e2)
      ∧ take 2 o1 = take 2 o2.
Proof.
  intros W inp.
  assert (Forall is_int8 W) as HW by (subst W; in_range).
  assert (Forall is_uint8 inp) as Hinp by (subst inp; in_range).
  split_and!; [simpl; lia.. | done | done |].
  destruct (xb_layer_execution W inp 2 3 [7; 7]%Z xb_reset)
    as (o1 & e1 & Hrun1 & _); [simpl; lia.. | done | done |].
  destruct (no_stale_state W inp 2 3 0 0 [7; 7]%Z [0; 9; 9]%Z xb_reset e1)
    as (_ & o1' & o2 & e1' & e2 & Hrun1' & Hrun2 & Heq);
    [simpl; lia.. | done | done |].
  assert (o1' = o1 ∧ e1' = e1) as [-> ->] by (split; congruence).
  by exists o1, o2, e1, e2.
Defined.

(** The tiled pass reads every input byte as unsigned: run on a signed
    buffer through the cast of line 128, it returns the dot products
    with each input taken modulo 256, so a negative activation would
    count as 256 more than its value. *)
Theorem imc_reads_inputs_unsigned (W inp : list Z) (rows cols : nat)
    (out : list Z) (d : Crossbar) :
  rows * cols ≤ length W → cols ≤ length inp → rows ≤ length out →
  Forall is_int8 W →
  ∃ out' d',
    imc_layer_execution W (uint8 <$> inp) rows cols (out, d)
    = Some (out', d')
    ∧ ∀ i, i < rows →
        out' !! i
        = Some (int32 (sumz (λ c, get W (i * cols + c)
                                  * (get inp c mod 256))%Z cols)).
Proof.
  intros HW Hinp Hout HW8.
  assert (Forall is_uint8 (uint8 <$> inp)) as Hbytes.
  { apply Forall_fmap, Forall_forall. intros x _. simpl.
    unfold is_uint8, uint8. pose proof (Z.mod_pos_bound x (2 ^ 8)). lia. }
  destruct (xb_layer_execution W (uint8 <$> inp) rows cols out d)
    as (o & d' & Hrun & _ & Ho); [done | by rewrite length_fmap | done.. |].
  exists o, d'. split; [done |]. intros i Hi.
  rewrite Ho, decide_True by done. do 2 f_equal. unfold dot.
  apply sumz_ext. intros c Hc. f_equal. unfold get.
  rewrite list_lookup_fmap.
  destruct (lookup_lt_is_Some_2 inp c) as [x ->]; [lia |]. done.
Qed.

Lemma imc_reads_inputs_unsigned_witness :
  let W := [1; -2; 3; 4; 5; -6]%Z in
  2 * 3 ≤ length W ∧ 3 ≤ length [10; -20; 30]%Z ∧ 2 ≤ length [7; 7]%Z
  ∧ Forall is_int8 W
  ∧ ∃ out' d',
      imc_layer_execution W (uint8 <$> [10; -20; 30]%Z) 2 3
        ([7; 7]%Z, xb_reset) = Some (out', d').
Proof.
  intros W.
  assert (Forall is_int8 W) as HW by (subst W; in_range).
  split_and!; [simpl; lia.. | done |].
  destruct (imc_reads_inputs_unsigned W [10; -20; 30]%Z 2 3 [7; 7]%Z
              xb_reset) as (o & d' & Hrun & _); [simpl; lia.. | done |].
  by exists o, d'.
Defined.

(** ** sw/hello.c: what an inference leaves behind *)

(** Both strategies leave the same contents in the three static
    buffers, contents that depend on the image alone and not on what
    the buffers or the crossbar held before; the CPU strategy does not
    touch the crossbar; and the class returned is a valid class index,
    the lowest one with the highest biased score. *)
Theorem inference_post_state (m : Model) (img : list Z)
    (g g' : Globals Crossbar) :
  wf_model m → wf_image m img → wf_globals m g → wf_globals m g' →
  1 ≤ OUTPUT_SIZE m →
  ∃ cls score d',
    infer_cpu m img g
    = Some (cls, mkGlobals (hidden_acc_of m img) (hidden_act_of m img)
                   (output_acc_of m img) (imc g))
    ∧ infer_imc m img g'
      = Some (cls, mkGlobals (hidden_acc_of m img) (hidden_act_of m img)
                     (output_acc_of m img) d')
    ∧ cls < OUTPUT_SIZE m
    ∧ output_acc_of m img !! cls = Some score
    ∧ (∀ j x, j < OUTPUT_SIZE m → output_acc_of m img !! j = Some x →
              (x ≤ score)%Z)
    ∧ (∀ j x, j < cls → output_acc_of m img !! j = Some x → (x < score)%Z).
Proof.
  intros Hm Himg Hg Hg' Hout.
  destruct (infer_cpu_table m Hm img g Himg Hg) as (cls & Hcls & Hcpu).
  destruct (infer_imc_table m Hm img g' Himg Hg')
    as (cls' & d' & Hcls' & Himc).
  assert (cls' = cls) as -> by congruence.
  destruct (argmax_scan (output_acc_of m img) (OUTPUT_SIZE m))
    as (best & score & Hbest & Hlt & Hscore & Hmax & Hfirst);
    [done | by rewrite output_acc_of_length |].
  assert (best = cls) as -> by congruence.
  by exists cls, score, d'.
Qed.

Lemma inference_post_state_witness :
  wf_model tiny ∧ wf_image tiny [10; 20; 30]%Z
  ∧ wf_globals tiny tiny_globals ∧ 1 ≤ OUTPUT_SIZE tiny
  ∧ ∃ cls g1 g2,
      infer_cpu tiny [10; 20; 30]%Z tiny_globals = Some (cls, g1)
      ∧ infer_imc tiny [10; 20; 30]%Z tiny_globals = Some (cls, g2)
      ∧ cls < OUTPUT_SIZE tiny.
Proof.
  assert (wf_image tiny [10; 20; 30]%Z) as Himg
    by (split; [simpl; lia | in_range]).
  assert (1 ≤ OUTPUT_SIZE tiny) as Hout by (simpl; lia).
  split_and!; [apply tiny_model_ok | done | apply tiny_globals_ok | done |].
  destruct (inference_post_state tiny [10; 20; 30]%Z tiny_globals
              tiny_globals tiny_model_ok Himg tiny_globals_ok
              tiny_globals_ok Hout)
    as (cls & score & d' & Hcpu & Himc & Hlt & _).
  eexists cls, _, _. split; [exact Hcpu |]. split; [exact Himc | exact Hlt].
Defined.

(** One iteration of the benchmark loop, field by field. *)
Lemma bench_image_fields (m : Model) (clk : nat → Z) (d : nat)
    (b : Bench Crossbar) :
  wf_model m → wf_tests m → d < NUM_TEST_IMAGES m →
  wf_globals m (globals b) →
  ∃ b' label (hit : bool),
    bench_image m clk d b = Some b'
    ∧ test_labels m !! d = Some label
    ∧ wf_globals m (globals b')
    ∧ clock_reads b' = clock_reads b + 4
    ∧ cpu_correct b' = (if hit then add32 (cpu_correct b) 1
                        else cpu_correct b)
    ∧ imc_correct b' = (if hit then add32 (imc_correct b) 1
                        else imc_correct b)
    ∧ total_cpu_cycles b'
      = uint32 (total_cpu_cycles b
                + uint32 (read_cycles clk (clock_reads b + 1)
                          - read_cycles clk (clock_reads b)))
    ∧ total_imc_cycles b'
      = uint32 (total_imc_cycles b
                + uint32 (read_cycles clk (clock_reads b + 3)
                          - read_cycles clk (clock_reads b + 2))).
Proof.
  intros Hm Htests Hd Hg.
  destruct (wf_tests_lookup m d Htests Hd) as (img & label & Himg & Hlabel & Hwf).
  destruct (infer_cpu_table m Hm img (globals b) Hwf Hg) as (cls & Hcls & Hcpu).
  destruct (infer_imc_table m Hm img
    (mkGlobals (hidden_acc_of m img) (hidden_act_of m img)
       (output_acc_of m img) (imc (globals b))) Hwf (wf_globals_table m img _))
    as (cls' & d' & Hcls' & Himc).
  assert (cls' = cls) as -> by congruence.
  unfold bench_image. rewrite Hlabel, Himg. bind_step.
  rewrite Hcpu. bind_step. rewrite Himc. bind_step.
  eexists _, label, (bool_decide (Z.of_nat cls = label)).
  split; [done |].
  cbn [globals clock_reads cpu_correct imc_correct total_cpu_cycles
       total_imc_cycles].
  split_and!; [done | apply wf_globals_table | done | | | done | done];
    by destruct (decide (Z.of_nat cls = label));
      [rewrite bool_decide_eq_true_2 | rewrite bool_decide_eq_false_2].
Qed.

(** [main] runs to its summary; by then the counter was read four
    times per image, and the two accuracy tallies are equal and
    between 0 and the number of images, so the summary prints the same
    accuracy for both strategies. *)
Theorem main_tallies_agree (m : Model) (clk : nat → Z)
    (g : Globals Crossbar) :
  wf_model m → wf_tests m → wf_globals m g →
  (Z.of_nat (NUM_TEST_IMAGES m) < 2 ^ 31)%Z →
  ∃ b, for_range 0 1 (NUM_TEST_IMAGES m) (bench_image m clk)
         (mkBench 0 0 0 0 g 0 banner) = Some b
    ∧ main m clk g = Some (uart b +:+ summary b)
    ∧ clock_reads b = 4 * NUM_TEST_IMAGES m
    ∧ cpu_correct b = imc_correct b
    ∧ (0 ≤ cpu_correct b ≤ Z.of_nat (NUM_TEST_IMAGES m))%Z.
Proof.
  intros Hm Htests Hg Hnum.
  destruct (for_range_inv
    (λ d (b : Bench Crossbar),
       wf_globals m (globals b) ∧ clock_reads b = 4 * d
       ∧ cpu_correct b = imc_correct b
       ∧ (0 ≤ cpu_correct b ≤ Z.of_nat d)%Z)
    0 (NUM_TEST_IMAGES m) (bench_image m clk)
    (mkBench 0 0 0 0 g 0 banner))
    as (b & Hrun & _ & Hreads & Heq & Hrange); [lia | | |].
  - split; [exact Hg |]. simpl. lia.
  - intros d b [_ Hd] (Hwf & Hreads & Heq & Hrange).
    destruct (bench_image_fields m clk d b Hm Htests Hd Hwf)
      as (b' & label & hit & Hrun & _ & Hwf' & Hreads' & Hcpu & Himc & _).
    exists b'. split; [exact Hrun |]. split; [exact Hwf' |].
    split; [lia |]. split.
    + rewrite Hcpu, Himc. by rewrite Heq.
    + rewrite Hcpu. destruct hit; [| lia]. unfold add32.
      rewrite int32_id by (unfold is_int32; lia). lia.
  - exists b. split; [exact Hrun |]. split; [| done].
    unfold main. by rewrite Hrun.
Qed.

Lemma main_tallies_agree_witness :
  wf_model tiny ∧ wf_tests tiny ∧ wf_globals tiny tiny_globals
  ∧ (Z.of_nat (NUM_TEST_IMAGES tiny) < 2 ^ 31)%Z
  ∧ ∃ b : Bench Crossbar,
      main tiny (λ k, Z.of_nat k * 1000)%Z tiny_globals
      = Some (uart b +:+ summary b)
      ∧ cpu_correct b = imc_correct b.
Proof.
  assert (Z.of_nat (NUM_TEST_IMAGES tiny) < 2 ^ 31)%Z as Hnum
    by (simpl; lia).
  split_and!; [apply tiny_model_ok | apply tiny_tests_ok
               | apply tiny_globals_ok | done |].
  destruct (main_tallies_agree tiny (λ k, Z.of_nat k * 1000)%Z tiny_globals
              tiny_model_ok tiny_tests_ok tiny_globals_ok Hnum)
    as (b & _ & Hmain & _ & Heq & _).
  exists b. split; [exact Hmain | exact Heq].
Defined.

(** The elapsed cycles of an image are right across a wrap of the
    32-bit counter: if the counter advances by less than 2^32 between
    the two reads around a strategy, the amount added to the running
    total is that advance, whatever the counter's absolute value. *)
Theorem elapsed_cycles_survive_wrap (m : Model) (clk : nat → Z) (d : nat)
    (b : Bench Crossbar) :
  wf_model m → wf_tests m → d < NUM_TEST_IMAGES m →
  wf_globals m (globals b) →
  (0 ≤ clk (clock_reads b + 1)%nat - clk (clock_reads b) < 2 ^ 32)%Z →
  (0 ≤ clk (clock_reads b + 3)%nat - clk (clock_reads b + 2)%nat < 2 ^ 32)%Z →
  ∃ b', bench_image m clk d b = Some b'
    ∧ total_cpu_cycles b'
      = uint32 (total_cpu_cycles b
                + (clk (clock_reads b + 1)%nat - clk (clock_reads b)))
    ∧ total_imc_cycles b'
      = uint32 (total_imc_cycles b
                + (clk (clock_reads b + 3)%nat - clk (clock_reads b + 2)%nat)).
Proof.
  intros Hm Htests Hd Hwf Hcpu Himc.
  assert (∀ t0 t1, (0 ≤ t1 - t0 < 2 ^ 32)%Z →
            uint32 (uint32 t1 - uint32 t0) = (t1 - t0)%Z) as Hdiff.
  { intros t0 t1 Ht. destruct (uint32_rep t0) as [k0 ->].
    destruct (uint32_rep t1) as [k1 ->]. unfold uint32.
    replace (t1 + k1 * 2 ^ 32 - (t0 + k0 * 2 ^ 32))%Z
      with (t1 - t0 + (k1 - k0) * 2 ^ 32)%Z by ring.
    rewrite Z_mod_plus_full. by apply Z.mod_small. }
  destruct (bench_image_fields m clk d b Hm Htests Hd Hwf)
    as (b' & label & hit & Hrun & _ & _ & _ & _ & _ & Htc & Hti).
  exists b'. split; [done |]. unfold read_cycles in Htc, Hti.
  by rewrite Hdiff in Htc, Hti by done.
Qed.

Lemma elapsed_cycles_survive_wrap_witness :
  let clk := (λ k, 4294967000 + Z.of_nat k * 1000)%Z in
  let b := mkBench 0 0 0 0 tiny_globals 0 EmptyString in
  wf_model tiny ∧ wf_tests tiny ∧ 0 < NUM_TEST_IMAGES tiny
  ∧ wf_globals tiny (globals b)
  ∧ (0 ≤ clk (clock_reads b + 1)%nat - clk (clock_reads b) < 2 ^ 32)%Z
  ∧ (0 ≤ clk (clock_reads b + 3)%nat - clk (clock_reads b + 2)%nat < 2 ^ 32)%Z
  ∧ ∃ b', bench_image tiny clk 0 b = Some b'
      ∧ total_cpu_cycles b' = 1000%Z.
Proof.
  intros clk b.
  assert (0 < NUM_TEST_IMAGES tiny) as Hd by (simpl; lia).
  assert (0 ≤ clk (clock_reads b + 1)%nat - clk (clock_reads b) < 2 ^ 32)%Z
    as H1 by (subst clk b; simpl; lia).
  assert (0 ≤ clk (clock_reads b + 3)%nat - clk (clock_reads b + 2)%nat < 2 ^ 32)%Z
    as H2 by (subst clk b; simpl; lia).
  split; [apply tiny_model_ok |]. split; [apply tiny_tests_ok |].
  split; [exact Hd |]. split; [apply tiny_globals_ok |].
  split; [exact H1 |]. split; [exact H2 |].
  destruct (elapsed_cycles_survive_wrap tiny clk 0 b tiny_model_ok
              tiny_tests_ok Hd tiny_globals_ok H1 H2)
    as (b' & Hrun & Htc & _).
  exists b'. split; [exact Hrun |]. rewrite Htc. by vm_compute.
Defined.

(** ** testbench.cpp: lines and markers *)

Lemma str_app_cons x a b : String x a +:+ b = String x (a +:+ b).
Proof. reflexivity. Qed.

Lemma str_app_nil_l b : EmptyString +:+ b = b.
Proof. reflexivity. Qed.

(** Unfolding appends to the front of a string. *)
Ltac app_step := rewrite ?str_app_cons, ?str_app_nil_l.

Lemma str_app_assoc a b c : (a +:+ b) +:+ c = a +:+ (b +:+ c).
Proof. induction a as [|x a IH]; app_step; [done | by f_equal]. Qed.

Lemma str_app_nil_r a : a +:+ EmptyString = a.
Proof. induction a as [|x a IH]; app_step; [done | by f_equal]. Qed.

Lemma str_length_app a b :
  String.length (a +:+ b) = String.length a + String.length b.
Proof. induction a as [|x a IH]; app_step; simpl; [done | by f_equal]. Qed.

Lemma prefix_app_self a b : String.prefix a (a +:+ b) = true.
Proof.
  induction a as [|x a IH]; app_step; simpl; [by destruct b |].
  by destruct (ascii_dec x x).
Qed.

Lemma substring_all s : String.substring 0 (String.length s) s = s.
Proof. induction s as [|x s IH]; simpl; [done | by f_equal]. Qed.

Lemma substring_front a b :
  String.substring 0 (String.length a) (a +:+ b) = a.
Proof.
  induction a as [|x a IH]; app_step; simpl; [by destruct b | by f_equal].
Qed.

Lemma substr_from_app a b :
  Testbench.substr_from (String.length a) (a +:+ b) = b.
Proof.
  unfold Testbench.substr_from. rewrite str_length_app.
  replace (String.length a + String.length b - String.length a)
    with (String.length b) by lia.
  induction a as [|x a IH]; app_step; simpl; [apply substring_all | done].
Qed.

Lemma index_cons pat y s :
  String.index 0 pat (String y s)
  = if String.prefix pat (String y s) then Some 0
    else match String.index 0 pat s with
         | Some n => Some (Datatypes.S n)
         | None => None
         end.
Proof. reflexivity. Qed.

(** The first occurrence of a pattern lies behind any stretch of text
    that lacks the pattern's first character. *)
Lemma index_after c pat p s :
  has_char c p = false → String.prefix (String c pat) s = true →
  String.index 0 (String c pat) (p +:+ s) = Some (String.length p).
Proof.
  intros Hp Hpre. induction p as [|x p IH]; app_step.
  - destruct s as [|y s]; [done |]. by rewrite index_cons, Hpre.
  - simpl in Hp. apply orb_false_elim in Hp as [Hx Hp].
    apply bool_decide_eq_false in Hx. rewrite index_cons. simpl.
    destruct (ascii_dec c x) as [-> |]; [done |].
    by rewrite (IH Hp).
Qed.

Lemma index_after_none c pat p s :
  has_char c p = false → String.index 0 (String c pat) s = None →
  String.index 0 (String c pat) (p +:+ s) = None.
Proof.
  intros Hp Hs. induction p as [|x p IH]; app_step; [done |].
  simpl in Hp. apply orb_false_elim in Hp as [Hx Hp].
  apply bool_decide_eq_false in Hx. rewrite index_cons. simpl.
  destruct (ascii_dec c x) as [-> |]; [done |].
  by rewrite (IH Hp).
Qed.

Lemma upto_newline_line name :
  has_char "010" name = false →
  Testbench.upto_newline (name +:+ nl) = name.
Proof.
  intros Hname. unfold Testbench.upto_newline, nl.
  rewrite (index_after "010" EmptyString name) by done.
  apply substring_front.
Qed.

Lemma record_start_line cycle p name mk :
  has_char "@" p = false → has_char "010" name = false →
  Testbench.record_marker cycle (p +:+ "@@START_" +:+ name +:+ nl) mk
  = <["START_" +:+ name := cycle]> mk.
Proof.
  intros Hp Hname. unfold Testbench.record_marker.
  rewrite (index_after "@" "@START_" p)
    by (done || apply (prefix_app_self "@@START_")).
  rewrite <- (str_app_assoc p "@@START_" (name +:+ nl)).
  replace (String.length p + 8) with (String.length (p +:+ "@@START_"))
    by (rewrite str_length_app; simpl; lia).
  by rewrite substr_from_app, upto_newline_line.
Qed.

Lemma record_end_line cycle p name mk :
  has_char "@" p = false → has_char "@" name = false →
  has_char "010" name = false →
  Testbench.record_marker cycle (p +:+ "@@END_" +:+ name +:+ nl) mk
  = <["END_" +:+ name := cycle]> mk.
Proof.
  intros Hp Hat Hname. unfold Testbench.record_marker.
  rewrite (index_after_none "@" "@START_" p); [| done |].
  - rewrite (index_after "@" "@END_" p)
      by (done || apply (prefix_app_self "@@END_")).
    rewrite <- (str_app_assoc p "@@END_" (name +:+ nl)).
    replace (String.length p + 6) with (String.length (p +:+ "@@END_"))
      by (rewrite str_length_app; simpl; lia).
    by rewrite substr_from_app, upto_newline_line.
  - app_step. rewrite !index_cons. simpl.
    rewrite (index_without_first_char "@" "@START_" (name +:+ nl));
      [done |].
    by rewrite has_char_app, Hat.
Qed.

(** *** Characters on the wire *)

Lemma sample_char_put c : Testbench.sample_char (Testbench.put c) = c.
Proof.
  unfold Testbench.sample_char, Testbench.put. simpl.
  change 255%Z with (Z.ones 8). rewrite Z.land_ones by lia.
  pose proof (N_ascii_bounded c).
  rewrite Z.mod_small by lia. by rewrite N2Z.id, ascii_N_embedding.
Qed.

Lemma spell_app a b :
  Testbench.spell (a +:+ b) = Testbench.spell a ++ Testbench.spell b.
Proof.
  induction a as [|x a IH]; app_step; simpl; [done | by rewrite IH].
Qed.

Lemma observe_from_step cycle x trace o :
  (0 ≤ cycle < Testbench.max_cycles)%Z →
  Testbench.observe_from cycle (x :: trace) o
  = Testbench.observe_from (cycle + 1) trace
      (Testbench.observe_cycle cycle x o).
Proof.
  intros Hc. simpl. rewrite decide_True by lia.
  unfold Testbench.max_cycles in Hc. unfold uint64.
  by rewrite (Z.mod_small (cycle + 1)) by lia.
Qed.

(** A character put on the wire after an idle cycle is appended to
    the current line. *)
Lemma observe_char cycle c trace o :
  (0 ≤ cycle)%Z → (cycle + 2 ≤ Testbench.max_cycles)%Z →
  c ≠ "010"%char →
  Testbench.observe_from cycle
    (Testbench.idle :: Testbench.put c :: trace) o
  = Testbench.observe_from (cycle + 2) trace
      (Testbench.mkObserver true
         (Testbench.current_line o +:+ String c EmptyString)
         (Testbench.markers o)).
Proof.
  intros H0 Hmax Hc.
  rewrite !observe_from_step by lia.
  replace (cycle + 1 + 1)%Z with (cycle + 2)%Z by lia. f_equal.
  unfold Testbench.observe_cycle at 1.
  change (Testbench.uart_write (Testbench.put c)) with true.
  change (Testbench.last_uart_write
            (Testbench.observe_cycle cycle Testbench.idle o)) with false.
  cbn [andb negb]. rewrite sample_char_put.
  by rewrite decide_False by done.
Qed.

Lemma observe_spell s :
  ∀ cycle trace o,
    has_char "010" s = false → (0 ≤ cycle)%Z →
    (cycle + 2 * Z.of_nat (String.length s) ≤ Testbench.max_cycles)%Z →
    Testbench.observe_from cycle (Testbench.spell s ++ trace) o
    = Testbench.observe_from (cycle + 2 * Z.of_nat (String.length s)) trace
        (Testbench.mkObserver
           (match s with
            | EmptyString => Testbench.last_uart_write o
            | _ => true
            end)
           (Testbench.current_line o +:+ s) (Testbench.markers o)).
Proof.
  induction s as [|c s IH]; intros cycle trace o Hs H0 Hmax.
  - simpl. rewrite Z.add_0_r, str_app_nil_r. by destruct o.
  - simpl in Hs. apply orb_false_elim in Hs as [Hc Hs].
    apply bool_decide_eq_false in Hc.
    cbn [Testbench.spell app String.length] in *.
    rewrite observe_char by (done || lia).
    rewrite IH by (done || lia). f_equal; [lia |].
    cbn [Testbench.current_line Testbench.markers
         Testbench.last_uart_write].
    rewrite str_app_assoc. simpl. by destruct s.
Qed.

(** A newline put on the wire closes the line: it is searched for a
    marker and the line buffer is emptied. *)
Lemma observe_newline cycle trace o :
  (0 ≤ cycle)%Z → (cycle + 2 ≤ Testbench.max_cycles)%Z →
  Testbench.observe_from cycle (Testbench.spell nl ++ trace) o
  = Testbench.observe_from (cycle + 2) trace
      (Testbench.mkObserver true EmptyString
         (Testbench.record_marker (cycle + 1)
            (Testbench.current_line o +:+ nl) (Testbench.markers o))).
Proof.
  intros H0 Hmax. cbn [Testbench.spell nl app].
  rewrite !observe_from_step by lia.
  replace (cycle + 1 + 1)%Z with (cycle + 2)%Z by lia. reflexivity.
Qed.

(** A whole line, one character every second cycle. *)
Lemma observe_line s cycle trace o :
  has_char "010" s = false → (0 ≤ cycle)%Z →
  (cycle + 2 * Z.of_nat (String.length s) + 2 ≤ Testbench.max_cycles)%Z →
  Testbench.observe_from cycle (Testbench.spell (s +:+ nl) ++ trace) o
  = Testbench.observe_from
      (cycle + 2 * Z.of_nat (String.length s) + 2) trace
      (Testbench.mkObserver true EmptyString
         (Testbench.record_marker
            (cycle + 2 * Z.of_nat (String.length s) + 1)
            (Testbench.current_line o +:+ s +:+ nl) (Testbench.markers o))).
Proof.
  intros Hs H0 Hmax. rewrite spell_app, <- app_assoc.
  rewrite observe_spell by (done || lia).
  rewrite observe_newline by lia.
  cbn [Testbench.current_line Testbench.markers]. by rewrite str_app_assoc.
Qed.

Lemma observe_start_marker name cycle trace o :
  has_char "@" (Testbench.current_line o) = false →
  has_char "010" name = false → (0 ≤ cycle)%Z →
  (cycle + 2 * Z.of_nat (String.length name) + 18 ≤ Testbench.max_cycles)%Z →
  Testbench.observe_from cycle
    (Testbench.spell ("@@START_" +:+ name +:+ nl) ++ trace) o
  = Testbench.observe_from
      (cycle + 2 * Z.of_nat (String.length name) + 18) trace
      (Testbench.mkObserver true EmptyString
         (<["START_" +:+ name :=
              (cycle + 2 * Z.of_nat (String.length name) + 17)%Z]>
            (Testbench.markers o))).
Proof.
  intros Hline Hname H0 Hmax.
  rewrite <- (str_app_assoc "@@START_" name nl).
  assert (String.length ("@@START_" +:+ name)
          = 8 + String.length name) as Hlen by by rewrite str_length_app.
  rewrite observe_line; [| | done | rewrite Hlen; lia].
  - rewrite Hlen, (str_app_assoc "@@START_" name nl).
    rewrite record_start_line by done.
    replace (cycle + 2 * Z.of_nat (8 + String.length name) + 2)%Z
      with (cycle + 2 * Z.of_nat (String.length name) + 18)%Z by lia.
    replace (cycle + 2 * Z.of_nat (8 + String.length name) + 1)%Z
      with (cycle + 2 * Z.of_nat (String.length name) + 17)%Z by lia.
    done.
  - rewrite has_char_app. by rewrite Hname.
Qed.

Lemma observe_end_marker name cycle trace o :
  has_char "@" (Testbench.current_line o) = false →
  has_char "@" name = false →
  has_char "010" name = false → (0 ≤ cycle)%Z →
  (cycle + 2 * Z.of_nat (String.length name) + 14 ≤ Testbench.max_cycles)%Z →
  Testbench.observe_from cycle
    (Testbench.spell ("@@END_" +:+ name +:+ nl) ++ trace) o
  = Testbench.observe_from
      (cycle + 2 * Z.of_nat (String.length name) + 14) trace
      (Testbench.mkObserver true EmptyString
         (<["END_" +:+ name :=
              (cycle + 2 * Z.of_nat (String.length name) + 13)%Z]>
            (Testbench.markers o))).
Proof.
  intros Hline Hat Hname H0 Hmax.
  rewrite <- (str_app_assoc "@@END_" name nl).
  assert (String.length ("@@END_" +:+ name)
          = 6 + String.length name) as Hlen by by rewrite str_length_app.
  rewrite observe_line; [| | done | rewrite Hlen; lia].
  - rewrite Hlen, (str_app_assoc "@@END_" name nl).
    rewrite record_end_line by done.
    replace (cycle + 2 * Z.of_nat (6 + String.length name) + 2)%Z
      with (cycle + 2 * Z.of_nat (String.length name) + 14)%Z by lia.
    replace (cycle + 2 * Z.of_nat (6 + String.length name) + 1)%Z
      with (cycle + 2 * Z.of_nat (String.length name) + 13)%Z by lia.
    done.
  - rewrite has_char_app. by rewrite Hname.
Qed.

(** A marker line sent one character every second cycle is recorded
    under its name at the cycle of its newline, whatever unmarked text
    precedes it on the line, and the line buffer is empty afterwards.
    A start line followed by an end line gives the phase the duration
    between the two newlines. *)
Theorem marker_lines_are_recorded (name : string) (cycle : Z)
    (o : Testbench.Observer) :
  has_char "@" (Testbench.current_line o) = false →
  has_char "@" name = false → has_char "010" name = false →
  (0 ≤ cycle)%Z →
  (cycle + 4 * Z.of_nat (String.length name) + 32 ≤ Testbench.max_cycles)%Z →
  let len := Z.of_nat (String.length name) in
  (let o1 := Testbench.observe_from cycle
               (Testbench.spell ("@@START_" +:+ name +:+ nl)) o in
   Testbench.markers o1
   = <["START_" +:+ name := (cycle + 2 * len + 17)%Z]> (Testbench.markers o)
   ∧ Testbench.current_line o1 = EmptyString)
  ∧ (let o1 := Testbench.observe_from cycle
                 (Testbench.spell ("@@END_" +:+ name +:+ nl)) o in
     Testbench.markers o1
     = <["END_" +:+ name := (cycle + 2 * len + 13)%Z]> (Testbench.markers o)
     ∧ Testbench.current_line o1 = EmptyString)
  ∧ (let o2 := Testbench.observe_from cycle
                 (Testbench.spell ("@@START_" +:+ name +:+ nl)
                  ++ Testbench.spell ("@@END_" +:+ name +:+ nl)) o in
     duration (Testbench.markers o2) name = (2 * len + 14)%Z).
Proof.
  intros Hline Hat Hname H0 Hmax len. split_and!.
  - rewrite <- (app_nil_r (Testbench.spell _)).
    rewrite observe_start_marker by (done || lia). done.
  - rewrite <- (app_nil_r (Testbench.spell _)).
    rewrite observe_end_marker by (done || lia). done.
  - rewrite observe_start_marker by (done || lia).
    rewrite <- (app_nil_r (Testbench.spell _)).
    rewrite observe_end_marker by (done || lia).
    cbn [Testbench.observe_from Testbench.markers]. unfold duration.
    rewrite lookup_insert_ne by discriminate.
    rewrite lookup_insert_eq, lookup_insert_eq.
    unfold uint64. fold len. unfold Testbench.max_cycles in Hmax.
    rewrite Z.mod_small; lia.
Qed.

Lemma marker_lines_are_recorded_witness :
  has_char "@" (Testbench.current_line Testbench.init) = false
  ∧ has_char "@" "LAYER1" = false ∧ has_char "010" "LAYER1" = false
  ∧ (0 ≤ 5)%Z
  ∧ (5 + 4 * Z.of_nat (String.length "LAYER1") + 32
     ≤ Testbench.max_cycles)%Z
  ∧ Testbench.markers
      (Testbench.observe_from 5
         (Testbench.spell ("@@START_" +:+ "LAYER1" +:+ nl)) Testbench.init)
    = <["START_" +:+ "LAYER1" := 34%Z]> ∅.
Proof.
  assert (has_char "@" (Testbench.current_line Testbench.init) = false)
    as H1 by reflexivity.
  assert (has_char "@" "LAYER1" = false) as H2 by reflexivity.
  assert (has_char "010" "LAYER1" = false) as H3 by reflexivity.
  assert (0 ≤ 5)%Z as H4 by lia.
  assert (5 + 4 * Z.of_nat (String.length "LAYER1") + 32
          ≤ Testbench.max_cycles)%Z as H5 by (vm_compute; discriminate).
  split; [exact H1 |]. split; [exact H2 |]. split; [exact H3 |].
  split; [exact H4 |]. split; [exact H5 |].
  by destruct (marker_lines_are_recorded "LAYER1" 5 Testbench.init
                 H1 H2 H3 H4 H5) as [[-> _] _].
Defined.

(** Last write wins: when the same start marker is sent twice, the
    map keeps the cycle of the second line only. *)
Theorem repeated_marker_overwrites (name : string) (cycle : Z)
    (o : Testbench.Observer) :
  has_char "@" (Testbench.current_line o) = false →
  has_char "010" name = false → (0 ≤ cycle)%Z →
  (cycle + 4 * Z.of_nat (String.length name) + 36 ≤ Testbench.max_cycles)%Z →
  Testbench.markers
    (Testbench.observe_from cycle
       (Testbench.spell ("@@START_" +:+ name +:+ nl)
        ++ Testbench.spell ("@@START_" +:+ name +:+ nl)) o)
  = <["START_" +:+ name :=
        (cycle + 4 * Z.of_nat (String.length name) + 35)%Z]>
      (Testbench.markers o).
Proof.
  intros Hline Hname H0 Hmax.
  rewrite observe_start_marker by (done || lia).
  rewrite <- (app_nil_r (Testbench.spell _)).
  rewrite observe_start_marker by (done || lia).
  cbn [Testbench.observe_from Testbench.markers].
  rewrite insert_insert_eq. f_equal. lia.
Qed.

Lemma repeated_marker_overwrites_witness :
  has_char "@" (Testbench.current_line Testbench.init) = false
  ∧ has_char "010" "TOTAL" = false ∧ (0 ≤ 0)%Z
  ∧ (0 + 4 * Z.of_nat (String.length "TOTAL") + 36
     ≤ Testbench.max_cycles)%Z
  ∧ Testbench.markers
      (Testbench.observe_from 0
         (Testbench.spell ("@@START_" +:+ "TOTAL" +:+ nl)
          ++ Testbench.spell ("@@START_" +:+ "TOTAL" +:+ nl))
         Testbench.init)
    = <["START_" +:+ "TOTAL" := 55%Z]> ∅.
Proof.
  assert (has_char "@" (Testbench.current_line Testbench.init) = false)
    as H1 by reflexivity.
  assert (has_char "010" "TOTAL" = false) as H2 by reflexivity.
  assert (0 ≤ 0)%Z as H3 by lia.
  assert (0 + 4 * Z.of_nat (String.length "TOTAL") + 36
          ≤ Testbench.max_cycles)%Z as H4 by (vm_compute; discriminate).
  split; [exact H1 |]. split; [exact H2 |]. split; [exact H3 |].
  split; [exact H4 |].
  apply (repeated_marker_overwrites "TOTAL" 0 Testbench.init H1 H2 H3 H4).
Defined.

(** A finished line that holds a start tag records nothing under any
    end key, also when an end tag stands on the same line, before or
    after the start tag. *)
Theorem start_tag_hides_end_tag (s : string) (cycle : Z)
    (o : Testbench.Observer) (pos : nat) (name : string) :
  has_char "010" s = false → (0 ≤ cycle)%Z →
  (cycle + 2 * Z.of_nat (String.length s) + 2 ≤ Testbench.max_cycles)%Z →
  String.index 0 "@@START_" (Testbench.current_line o +:+ s +:+ nl)
  = Some pos →
  Testbench.markers
    (Testbench.observe_from cycle (Testbench.spell (s +:+ nl)) o)
  !! ("END_" +:+ name)
  = Testbench.markers o !! ("END_" +:+ name).
Proof.
  intros Hs H0 Hmax Hpos.
  rewrite <- (app_nil_r (Testbench.spell _)).
  rewrite observe_line by done.
  cbn [Testbench.observe_from Testbench.markers].
  unfold Testbench.record_marker. rewrite Hpos.
  by rewrite lookup_insert_ne by discriminate.
Qed.

Lemma start_tag_hides_end_tag_witness :
  has_char "010" "@@END_A@@START_B" = false ∧ (0 ≤ 0)%Z
  ∧ (0 + 2 * Z.of_nat (String.length "@@END_A@@START_B") + 2
     ≤ Testbench.max_cycles)%Z
  ∧ String.index 0 "@@START_"
      (Testbench.current_line Testbench.init
       +:+ "@@END_A@@START_B" +:+ nl) = Some 7
  ∧ Testbench.markers
      (Testbench.observe_from 0
         (Testbench.spell ("@@END_A@@START_B" +:+ nl)) Testbench.init)
    !! ("END_" +:+ "A") = None.
Proof.
  assert (has_char "010" "@@END_A@@START_B" = false) as H1 by reflexivity.
  assert (0 ≤ 0)%Z as H2 by lia.
  assert (0 + 2 * Z.of_nat (String.length "@@END_A@@START_B") + 2
          ≤ Testbench.max_cycles)%Z as H3 by (vm_compute; discriminate).
  assert (String.index 0 "@@START_"
            (Testbench.current_line Testbench.init
             +:+ "@@END_A@@START_B" +:+ nl) = Some 7) as H4 by reflexivity.
  split; [exact H1 |]. split; [exact H2 |]. split; [exact H3 |].
  split; [exact H4 |].
  by rewrite (start_tag_hides_end_tag "@@END_A@@START_B" 0 Testbench.init
                7 "A" H1 H2 H3 H4).
Defined.

Lemma observe_from_held xs :
  ∀ cycle o,
    Testbench.last_uart_write o = true →
    Forall (λ x, Testbench.uart_write x = true) xs →
    Testbench.current_line (Testbench.observe_from cycle xs o)
    = Testbench.current_line o
    ∧ Testbench.markers (Testbench.observe_from cycle xs o)
      = Testbench.markers o.
Proof.
  induction xs as [|x xs IH]; intros cycle o Hlast Hall; [done |].
  apply Forall_cons in Hall as [Hx Hall]. simpl.
  case_decide; [| done].
  destruct (IH (uint64 (cycle + 1)) (Testbench.observe_cycle cycle x o))
    as [-> ->]; [| done |].
  - unfold Testbench.observe_cycle. by rewrite Hx, Hlast.
  - unfold Testbench.observe_cycle. by rewrite Hx, Hlast.
Qed.

(** Characters are taken on rising edges of the write strobe only: of
    a run of UART writes in consecutive cycles the first character
    reaches the line buffer and the others are lost. *)
Theorem only_first_of_a_burst_is_taken (c : ascii)
    (xs : list Testbench.Sample) (cycle : Z) (o : Testbench.Observer) :
  (0 ≤ cycle)%Z → (cycle + 2 ≤ Testbench.max_cycles)%Z →
  c ≠ "010"%char →
  Forall (λ x, Testbench.uart_write x = true) xs →
  let o' := Testbench.observe_from cycle
              (Testbench.idle :: Testbench.put c :: xs) o in
  Testbench.current_line o'
  = Testbench.current_line o +:+ String c EmptyString
  ∧ Testbench.markers o' = Testbench.markers o.
Proof.
  intros H0 Hmax Hc Hxs. cbv zeta. rewrite observe_char by done.
  by destruct (observe_from_held xs (cycle + 2)
    (Testbench.mkObserver true
       (Testbench.current_line o +:+ String c EmptyString)
       (Testbench.markers o)) eq_refl Hxs) as [-> ->].
Qed.

Lemma only_first_of_a_burst_is_taken_witness :
  (0 ≤ 0)%Z ∧ (0 + 2 ≤ Testbench.max_cycles)%Z ∧ "H"%char ≠ "010"%char
  ∧ Forall (λ x, Testbench.uart_write x = true)
      [Testbench.put "i"; Testbench.put "010"]
  ∧ Testbench.current_line
      (Testbench.observe_from 0
         [Testbench.idle; Testbench.put "H"; Testbench.put "i";
          Testbench.put "010"] Testbench.init)
    = "H".
Proof.
  assert (0 ≤ 0)%Z as H1 by lia.
  assert (0 + 2 ≤ Testbench.max_cycles)%Z as H2
    by (vm_compute; discriminate).
  assert ("H"%char ≠ "010"%char) as H3 by discriminate.
  assert (Forall (λ x, Testbench.uart_write x = true)
            [Testbench.put "i"; Testbench.put "010"]) as H4
    by (repeat constructor).
  split; [exact H1 |]. split; [exact H2 |]. split; [exact H3 |].
  split; [exact H4 |].
  by destruct (only_first_of_a_burst_is_taken "H"
                 [Testbench.put "i"; Testbench.put "010"] 0 Testbench.init
                 H1 H2 H3 H4) as [-> _].
Defined.

Lemma record_marker_lookup cycle line mk k v :
  Testbench.record_marker cycle line mk !! k = Some v →
  v = cycle ∨ mk !! k = Some v.
Proof.
  unfold Testbench.record_marker.
  destruct (String.index 0 "@@START_" line);
    [| destruct (String.index 0 "@@END_" line)]; [| | by right];
    intros [[_ <-] | [_ ?]]%lookup_insert_Some; auto.
Qed.

Lemma observe_from_cycles trace :
  ∀ cycle o,
    (0 ≤ cycle ≤ Testbench.max_cycles)%Z →
    (∀ k v, Testbench.markers o !! k = Some v → (0 ≤ v < cycle)%Z) →
    ∀ k v, Testbench.markers (Testbench.observe_from cycle trace o) !! k
           = Some v →
      (0 ≤ v < cycle + Z.of_nat (length trace))%Z
      ∧ (v < Testbench.max_cycles)%Z.
Proof.
  induction trace as [|x trace IH]; intros cycle o Hc Hold k v Hv.
  - simpl in *. specialize (Hold k v Hv). lia.
  - simpl in Hv. case_decide as Hlt.
    + unfold uint64 in Hv. unfold Testbench.max_cycles in *.
      rewrite Z.mod_small in Hv by lia.
      apply IH in Hv as [? ?]; [simpl length; lia | lia |].
      intros k' v' Hv'.
      assert (v' = cycle ∨ Testbench.markers o !! k' = Some v') as [-> | Ho].
      { unfold Testbench.observe_cycle in Hv'.
        destruct (_ && _); [| by right].
        case_decide; [| by right].
        by apply record_marker_lookup in Hv'. }
      * lia.
      * specialize (Hold k' v' Ho). lia.
    + specialize (Hold k v Hv). simpl length. lia.
Qed.

(** Every cycle the observer records lies inside the run: it is the
    index of a sample of the trace and below the cycle budget. *)
Theorem recorded_cycles_are_in_range (trace : list Testbench.Sample)
    (k : string) (v : Z) :
  Testbench.markers (Testbench.observe trace) !! k = Some v →
  (0 ≤ v < Z.of_nat (length trace))%Z ∧ (v < Testbench.max_cycles)%Z.
Proof.
  intros Hv. unfold Testbench.observe in Hv.
  apply (observe_from_cycles trace 0 Testbench.init) in Hv.
  - by rewrite Z.add_0_l in Hv.
  - unfold Testbench.max_cycles. lia.
  - intros k' v' Hv'. simpl in Hv'. by rewrite lookup_empty in Hv'.
Qed.

Lemma recorded_cycles_are_in_range_witness :
  let trace := Testbench.spell ("@@START_A" +:+ nl) in
  Testbench.markers (Testbench.observe trace) !! "START_A" = Some 19%Z
  ∧ (0 ≤ 19 < Z.of_nat (length trace))%Z.
Proof.
  intros trace.
  assert (Testbench.markers (Testbench.observe trace) !! "START_A"
          = Some 19%Z) as Hv by (by vm_compute).
  split; [exact Hv |].
  by destruct (recorded_cycles_are_in_range trace "START_A" 19 Hv).
Defined.

(** Lines without the character '@' are not parsed: a finished line
    of plain text leaves the marker map as it was and empties the line
    buffer, so table rows do not pile up in front of a later marker. *)
Theorem plain_lines_are_skipped (s : string) (cycle : Z)
    (trace : list Testbench.Sample) (o : Testbench.Observer) :
  has_char "@" (Testbench.current_line o) = false →
  has_char "@" s = false → has_char "010" s = false → (0 ≤ cycle)%Z →
  (cycle + 2 * Z.of_nat (String.length s) + 2 ≤ Testbench.max_cycles)%Z →
  Testbench.observe_from cycle (Testbench.spell (s +:+ nl) ++ trace) o
  = Testbench.observe_from
      (cycle + 2 * Z.of_nat (String.length s) + 2) trace
      (Testbench.mkObserver true EmptyString (Testbench.markers o)).
Proof.
  intros Hline Hat Hs H0 Hmax. rewrite observe_line by done.
  rewrite record_marker_no_at; [done |].
  rewrite !has_char_app. by rewrite Hline, Hat.
Qed.

Lemma plain_lines_are_skipped_witness :
  has_char "@" (Testbench.current_line Testbench.init) = false
  ∧ has_char "@" "  CPU Accuracy: 9/10" = false
  ∧ has_char "010" "  CPU Accuracy: 9/10" = false ∧ (0 ≤ 0)%Z
  ∧ (0 + 2 * Z.of_nat (String.length "  CPU Accuracy: 9/10") + 2
     ≤ Testbench.max_cycles)%Z
  ∧ Testbench.markers
      (Testbench.observe_from 0
         (Testbench.spell ("  CPU Accuracy: 9/10" +:+ nl)
          ++ Testbench.spell ("@@START_A" +:+ nl)) Testbench.init)
    !! "START_A" = Some 61%Z.
Proof.
  assert (has_char "@" (Testbench.current_line Testbench.init) = false)
    as H1 by reflexivity.
  assert (has_char "@" "  CPU Accuracy: 9/10" = false) as H2 by reflexivity.
  assert (has_char "010" "  CPU Accuracy: 9/10" = false) as H3
    by reflexivity.
  assert (0 ≤ 0)%Z as H4 by lia.
  assert (0 + 2 * Z.of_nat (String.length "  CPU Accuracy: 9/10") + 2
          ≤ Testbench.max_cycles)%Z as H5 by (vm_compute; discriminate).
  split; [exact H1 |]. split; [exact H2 |]. split; [exact H3 |].
  split; [exact H4 |]. split; [exact H5 |].
  rewrite (plain_lines_are_skipped "  CPU Accuracy: 9/10" 0
             (Testbench.spell ("@@START_A" +:+ nl)) Testbench.init
             H1 H2 H3 H4 H5).
  by vm_compute.
Defined.
